(** * sawyer_utec: the open-loop pick and place demo

    A shallow embedding of [scripts/pick_place_demo.py] and the properties of
    its inverse-kinematics wrapper [get_ik], of the waypoint sequence
    [pick_place] and of the start-up code of [main].

    Python floats are IEEE binary64 numbers: they are modelled by Rocq's
    primitive floats, so that [zi+zpre_grasp] is the very addition the
    interpreter performs.  Dictionaries keyed by joint names are finite maps
    from strings.  The robot, the gripper and the IK service are an
    environment [Env] that answers each external call from the history of the
    run; every external call is recorded as an event. *)

From Stdlib Require Import ZArith Floats.
From stdpp Require Import gmap strings list fin_maps.
Set Warnings "-inexact-float".

(** ** Data *)

(** A Python [dict] from joint names to angles. *)
Abbreviation Dict := (gmap string float).

(** [(x, y, z)] and [(ew, ex, ey, ez)], as the docstrings give them. *)
Definition Position : Type := float * float * float.
Definition Quaternion : Type := float * float * float * float.
Definition Pose : Type := Position * Quaternion.

(** Tuple indexing: [p[0]], [p[1]], [p[2]] and [o[0]] .. [o[3]]. *)
Definition pos0 (p : Position) : float := p.1.1.
Definition pos1 (p : Position) : float := p.1.2.
Definition pos2 (p : Position) : float := p.2.
Definition quat0 (o : Quaternion) : float := o.1.1.1.
Definition quat1 (o : Quaternion) : float := o.1.1.2.
Definition quat2 (o : Quaternion) : float := o.1.2.
Definition quat3 (o : Quaternion) : float := o.2.

(** [geometry_msgs/PoseStamped]. *)
Record Header := { stamp : Z; frame_id : string }.
Record Point := { point_x : float; point_y : float; point_z : float }.
Record QuaternionMsg :=
  { orient_x : float; orient_y : float; orient_z : float; orient_w : float }.
Record PoseMsg := { position : Point; orientation : QuaternionMsg }.
Record PoseStamped := { header : Header; pose : PoseMsg }.

(** [sensor_msgs/JointState]; only the two fields the script touches. *)
Record JointState := { js_name : list string; js_position : list float }.

(** [intera_core_msgs/SolvePositionIK]: the request fields the script fills
    in and the response fields it reads. *)
Record SolvePositionIKRequest :=
  { pose_stamp : list PoseStamped;
    tip_names : list string;
    seed_mode : Z;
    seed_angles : list JointState }.
Record SolvePositionIKResponse :=
  { result_type : list Z; joints : list JointState }.

(** [class JointResult: jangles = {}; valid = False].  Both are class
    attributes: an instance on which nothing was assigned reads the class
    dictionary, which no statement of the script ever mutates
    ([result.jangles = ...] rebinds the attribute of the instance). *)
Record JointResult := { jangles : Dict; valid : bool }.
Definition JointResult_new : JointResult := {| jangles := ∅; valid := false |}.

(** ** Exceptions and results *)

Inductive Exn :=
| KeyError (key : string)
| IndexError
| ValueError
| ServiceException
| ROSException
| OtherException (name : string).

Inductive Res (A : Type) :=
| Ret (a : A)
| Raise (e : Exn).
Arguments Ret {A} a.
Arguments Raise {A} e.

(** ** Events *)

Inductive LogMsg :=
| ServiceCallFailed (e : Exn)
| ValidJointsFromSeed (seed_str : string)
| IKJointSolution (limb_joints : Dict)
| InvalidPose
| ResultError (code : Z)
| CouldNotDetectGripper.

(** One event per external call.  [EvSolve] is the only ghost event: it
    records a call of [get_ik] made by [pick_place], with its two arguments
    and how it ended, so that the seed handed to each solve can be read off
    the trace even when the solve fails before it reaches the service. *)
Inductive Event :=
| EvInitNode (name : string)
| EvLimb (name : string)
| EvHeadDisplay
| EvGripper (name : string)
| EvCalibrate
| EvDisplayImage (path : string)
| EvMoveToNeutral
| EvMoveToJointPositions (q : Dict)
| EvSetPosition (opening : float)
| EvGripperOpen
| EvSleep (duration : float)
| EvWaitForService (name : string) (timeout : float)
| EvServiceCall (req : SolvePositionIKRequest)
| EvLogErr (m : LogMsg)
| EvLogInfo (m : LogMsg)
| EvSolve (target : Pose) (q_initial : Dict) (r : Res JointResult).

Abbreviation Trace := (list Event).

(** ** The environment *)

(** What [rospy.wait_for_service] and a service proxy do: the first raises
    [ROSException] when the timeout elapses, the second raises
    [ServiceException] when the call fails. *)
Inductive WaitOutcome := Available | Unavailable.
Inductive CallOutcome := CommunicationFault | Response (r : SolvePositionIKResponse).

(** Every answer may depend on the whole history of the run.  Constants and
    helpers that live outside the script ([SEED_*] of the request message,
    [Gripper.MAX_POSITION], [quaternionFromAxisAngle] of [utils]) are
    fields as well. *)
Record Env :=
  { time_now : Trace → Z;
    wait_for_service : Trace → string → float → WaitOutcome;
    ik_client : Trace → SolvePositionIKRequest → CallOutcome;
    gripper_new : Trace → option Exn;
    gripper_calibrate : Trace → option Exn;
    limb_joint_angles : Trace → Dict;
    get_pkg_dir : string → string;
    SEED_USER : Z;
    SEED_CURRENT : Z;
    SEED_NS_MAP : Z;
    MAX_POSITION : float;
    quaternionFromAxisAngle : float → Position → Quaternion }.

(** ** The monad of the script *)

(** A computation reads the history and returns a value or an exception,
    with the events it added. *)
Definition M (A : Type) : Type := Trace → Res A * Trace.

Definition ret {A} (a : A) : M A := λ _, (Ret a, []).
Definition raise {A} (e : Exn) : M A := λ _, (Raise e, []).
Definition bind {A B} (m : M A) (f : A → M B) : M B := λ h,
  match m h with
  | (Ret a, evs) =>
      match f a (h ++ evs) with
      | (r, evs') => (r, evs ++ evs')
      end
  | (Raise e, evs) => (Raise e, evs)
  end.
Definition emit (e : Event) : M unit := λ _, (Ret tt, [e]).
(** An external call that may fail: the event, and the outcome the
    environment gives it from the history before the call. *)
Definition external {A} (e : Event) (outcome : Trace → Res A) : M A :=
  λ h, (outcome h, [e]).
Definition ask {A} (f : Trace → A) : M A := λ h, (Ret (f h), []).

(** [try: body except (classes): handler]. *)
Definition try_except {A} (body : M A) (catches : Exn → bool)
    (handler : Exn → M A) : M A := λ h,
  match body h with
  | (Raise e, evs) =>
      if catches e
      then match handler e (h ++ evs) with
           | (r, evs') => (r, evs ++ evs')
           end
      else (Raise e, evs)
  | done => done
  end.

Declare Scope script_scope.
Delimit Scope script_scope with script.
Notation "'let*' x ':=' m 'in' k" := (bind m (λ x, k))
  (at level 10, x name, m at level 100, k at level 200) : script_scope.
Notation "m ';;;' k" := (bind m (λ _, k))
  (at level 100, k at level 200, right associativity) : script_scope.
Local Open Scope script_scope.

(** [d[k]] and [l[0]]. *)
Definition getitem {V} (d : gmap string V) (k : string) : M V :=
  match d !! k with
  | Some v => ret v
  | None => raise (KeyError k)
  end.
Definition first {A} (l : list A) : M A :=
  match l with
  | x :: _ => ret x
  | [] => raise IndexError
  end.

(** [dict(zip(names, values))]: [zip] stops at the shorter list and a later
    pair replaces an earlier one with the same key. *)
Definition dict_zip (names : list string) (values : list float) : Dict :=
  fold_left (λ d kv, <[kv.1 := kv.2]> d) (zip names values) ∅.

(** [when c: m]. *)
Definition when (c : bool) (m : M unit) : M unit := if c then m else ret tt.

(** ** The script *)

Section Script.

Variable env : Env.

(** External calls: each one is an event; those that can fail ask the
    environment how they end. *)
Definition rospy_wait_for_service (name : string) (timeout : float) : M unit :=
  external (EvWaitForService name timeout)
    (λ h, match wait_for_service env h name timeout with
          | Available => Ret tt
          | Unavailable => Raise ROSException
          end).

Definition rospy_service_proxy_call (req : SolvePositionIKRequest)
    : M SolvePositionIKResponse :=
  external (EvServiceCall req)
    (λ h, match ik_client env h req with
          | Response r => Ret r
          | CommunicationFault => Raise ServiceException
          end).

Definition rospy_logerr (m : LogMsg) : M unit := emit (EvLogErr m).
Definition rospy_loginfo (m : LogMsg) : M unit := emit (EvLogInfo m).
Definition rospy_sleep (duration : float) : M unit := emit (EvSleep duration).
Definition limb_move_to_joint_positions (q : Dict) : M unit :=
  emit (EvMoveToJointPositions q).
Definition limb_move_to_neutral : M unit := emit EvMoveToNeutral.
Definition gripper_set_position (opening : float) : M unit :=
  emit (EvSetPosition opening).
Definition gripper_open : M unit := emit EvGripperOpen.

(** [pose_to_dict_message(position, orientation)] *)
Definition pose_to_dict_message (position : Position) (orientation : Quaternion)
    : M (gmap string PoseStamped) :=
  let* now := ask (time_now env) in
  let pose_msg :=
    {| header := {| stamp := now; frame_id := "base" |};
       pose := {| position := {| point_x := pos0 position;
                                 point_y := pos1 position;
                                 point_z := pos2 position |};
                  orientation := {| orient_w := quat0 orientation;
                                    orient_x := quat1 orientation;
                                    orient_y := quat2 orientation;
                                    orient_z := quat3 orientation |} |} |} in
  ret {[ "right" := pose_msg ]}.

(** The names of the seed, in the order of the lookups. *)
Definition seed_names : list string :=
  ["right_j0"; "right_j1"; "right_j2"; "right_j3";
   "right_j4"; "right_j5"; "right_j6"].

(** The classes of [except (rospy.ServiceException, rospy.ROSException)]. *)
Definition ros_failure (e : Exn) : bool :=
  match e with
  | ServiceException | ROSException => true
  | _ => false
  end.

(** [get_ik(pose, q_initial)].  The [try] block either hands the response to
    the code after it ([inr]) or leaves the function with [result] ([inl]). *)
Definition get_ik (target : Pose) (q_initial : Dict) : M JointResult :=
  let* pose_msg := pose_to_dict_message target.1 target.2 in
  let limb := "right" in
  let result := JointResult_new in
  let serv_name :=
    "ExternalTools/" +:+ limb +:+ "/PositionKinematicsNode/IKService" in
  let* stamped := getitem pose_msg limb in
  let* q0 := getitem q_initial "right_j0" in
  let* q1 := getitem q_initial "right_j1" in
  let* q2 := getitem q_initial "right_j2" in
  let* q3 := getitem q_initial "right_j3" in
  let* q4 := getitem q_initial "right_j4" in
  let* q5 := getitem q_initial "right_j5" in
  let* q6 := getitem q_initial "right_j6" in
  let seed := {| js_name := seed_names;
                 js_position := [q0; q1; q2; q3; q4; q5; q6] |} in
  let ik_request := {| pose_stamp := [stamped];
                       tip_names := ["right_hand"];
                       seed_mode := SEED_USER env;
                       seed_angles := [seed] |} in
  let* attempt :=
    try_except
      (rospy_wait_for_service serv_name 5.0 ;;;
       let* ik_response := rospy_service_proxy_call ik_request in
       ret (inr ik_response))
      ros_failure
      (λ e, rospy_logerr (ServiceCallFailed e) ;;; ret (inl result)) in
  match attempt with
  | inl early => ret early
  | inr ik_response =>
      let* code := first (result_type ik_response) in
      if (0 <? code)%Z then
        let seed_str :=
          default "None"
            ((<[SEED_NS_MAP env := "Nullspace Setpoints"]>
               (<[SEED_CURRENT env := "Current Joint Angles"]>
                 (<[SEED_USER env := "User Provided Seed"]> ∅)) : gmap Z string)
               !! code) in
        rospy_loginfo (ValidJointsFromSeed seed_str) ;;;
        let* solution := first (joints ik_response) in
        let limb_joints :=
          dict_zip (js_name solution) (js_position solution) in
        rospy_loginfo (IKJointSolution limb_joints) ;;;
        ret {| jangles := limb_joints; valid := true |}
      else
        rospy_logerr InvalidPose ;;;
        rospy_logerr (ResultError code) ;;;
        ret result
  end.

(** A call of [get_ik] as [pick_place] makes it: the call itself, followed
    by its ghost record. *)
Definition call_get_ik (target : Pose) (q_initial : Dict) : M JointResult :=
  λ h, match get_ik target q_initial h with
       | (r, evs) => (r, evs ++ [EvSolve target q_initial r])
       end.

(** [pick_place(limb, gripper, pose_initial, pose_final, gripper_opening,
    zpre_grasp, qinit)]; the two device handles are the environment. *)
Definition pick_place (pose_initial pose_final : Pose)
    (gripper_opening zpre_grasp : float) (qinit : Dict) : M unit :=
  let xi := pos0 pose_initial.1 in
  let yi := pos1 pose_initial.1 in
  let zi := pos2 pose_initial.1 in
  let quat_i := pose_initial.2 in
  let xf := pos0 pose_final.1 in
  let yf := pos1 pose_final.1 in
  let zf := pos2 pose_final.1 in
  let quat_f := pose_final.2 in
  (* Move to a pre-grasping position *)
  let target : Pose := ((xi, yi, (zi + zpre_grasp)%float), quat_i) in
  let* result := call_get_ik target qinit in
  when (valid result) (limb_move_to_joint_positions (jangles result)) ;;;
  (* Move to grasp the object *)
  let target : Pose := ((xi, yi, zi), quat_i) in
  let* result := call_get_ik target (jangles result) in
  when (valid result) (limb_move_to_joint_positions (jangles result)) ;;;
  (* Close the gripper *)
  gripper_set_position gripper_opening ;;;
  rospy_sleep 1.0 ;;;
  (* Move the object up (intermediate pose) *)
  let target : Pose := ((xi, yi, (zi + zpre_grasp)%float), quat_i) in
  let* result := call_get_ik target (jangles result) in
  when (valid result) (limb_move_to_joint_positions (jangles result)) ;;;
  (* Move the object in the air *)
  let target : Pose := ((xf, yf, (zf + zpre_grasp)%float), quat_f) in
  let* result := call_get_ik target (jangles result) in
  when (valid result) (limb_move_to_joint_positions (jangles result)) ;;;
  (* Move to the final (release) pose *)
  let target : Pose := ((xf, yf, zf), quat_f) in
  let* result := call_get_ik target (jangles result) in
  when (valid result) (limb_move_to_joint_positions (jangles result)) ;;;
  (* Open the gripper *)
  gripper_open ;;;
  rospy_sleep 1.0 ;;;
  (* Move upwards without the object *)
  let target : Pose := ((xf, yf, (zf + zpre_grasp)%float), quat_f) in
  let* result := call_get_ik target (jangles result) in
  when (valid result) (limb_move_to_joint_positions (jangles result)).

(** The constructors and the calls of [main] that are not in [pick_place]. *)
Definition rospy_init_node (name : string) : M unit := emit (EvInitNode name).
Definition intera_Limb (name : string) : M unit := emit (EvLimb name).
Definition intera_HeadDisplay : M unit := emit EvHeadDisplay.
Definition intera_Gripper (name : string) : M unit :=
  external (EvGripper name)
    (λ h, match gripper_new env h with
          | None => Ret tt
          | Some e => Raise e
          end).
Definition gripper_calibrate_call : M unit :=
  external EvCalibrate
    (λ h, match gripper_calibrate env h with
          | None => Ret tt
          | Some e => Raise e
          end).
Definition head_display_image (path : string) : M unit :=
  emit (EvDisplayImage path).
Definition limb_joint_angles_call : M Dict := ask (limb_joint_angles env).

(** The class of [except ValueError]. *)
Definition value_error (e : Exn) : bool :=
  match e with
  | ValueError => true
  | _ => false
  end.

(** [main()].  As in [get_ik], [inl] is the [return] of the handler. *)
Definition main : M unit :=
  rospy_init_node "MoveCartesian" ;;;
  intera_Limb "right" ;;;
  intera_HeadDisplay ;;;
  let* started :=
    try_except
      (intera_Gripper "right_gripper" ;;;
       gripper_calibrate_call ;;;
       let nsteps := 5.0%float in
       ret (inr (MAX_POSITION env / nsteps)%float))
      value_error
      (λ _, rospy_logerr CouldNotDetectGripper ;;; ret (inl tt)) in
  match started with
  | inl _ => ret tt
  | inr dgripper =>
      let folder := get_pkg_dir env "sawyer_utec" +:+ "/images/" in
      head_display_image (folder +:+ "up1.jpg") ;;;
      limb_move_to_neutral ;;;
      let* jangles_neutral := limb_joint_angles_call in
      gripper_open ;;;
      let y_axis : Position := (0.0, 1.0, 0.0)%float in
      (* vaso 1 *)
      let quat_init := quaternionFromAxisAngle env 180.0 y_axis in
      let pose_initial1 : Pose := ((0.6, 0.50, 0.03)%float, quat_init) in
      let quat_final := quaternionFromAxisAngle env 180.0 y_axis in
      let pose_final1 : Pose := ((0.6, -0.5, 0.02)%float, quat_final) in
      let gripper_opening := (3.5 * dgripper)%float in
      let z_pre_grasp := 0.20%float in
      pick_place pose_initial1 pose_final1 gripper_opening z_pre_grasp
        jangles_neutral ;;;
      (* vaso 2: the poses reuse [quat_init] and [quat_final] of vaso 1 *)
      let pose_initial2 : Pose := ((0.6, 0.40, 0.03)%float, quat_init) in
      let pose_final2 : Pose := ((0.6, -0.42, 0.02)%float, quat_final) in
      let gripper_opening := (3.5 * dgripper)%float in
      let z_pre_grasp := 0.20%float in
      pick_place pose_initial2 pose_final2 gripper_opening z_pre_grasp
        jangles_neutral ;;;
      (* vaso 3 *)
      let quat_init := quaternionFromAxisAngle env 180.0 y_axis in
      let pose_initial3 : Pose := ((0.6, 0.32, 0.03)%float, quat_init) in
      let quat_final := quaternionFromAxisAngle env 180.0 y_axis in
      let pose_final3 : Pose := ((0.6, -0.34, 0.02)%float, quat_final) in
      let gripper_opening := (3.5 * dgripper)%float in
      let z_pre_grasp := 0.20%float in
      pick_place pose_initial3 pose_final3 gripper_opening z_pre_grasp
        jangles_neutral ;;;
      (* vaso 4 *)
      let quat_init := quaternionFromAxisAngle env 180.0 y_axis in
      let pose_initial4 : Pose := ((0.7, 0.5, 0.03)%float, quat_init) in
      let quat_final := quaternionFromAxisAngle env 180.0 y_axis in
      let pose_final4 : Pose := ((0.6, -0.46, 0.12)%float, quat_final) in
      let gripper_opening := (3.5 * dgripper)%float in
      let z_pre_grasp := 0.20%float in
      pick_place pose_initial4 pose_final4 gripper_opening z_pre_grasp
        jangles_neutral ;;;
      (* vaso 5 *)
      let quat_init := quaternionFromAxisAngle env 180.0 y_axis in
      let pose_initial5 : Pose := ((0.7, 0.4, 0.03)%float, quat_init) in
      let quat_final := quaternionFromAxisAngle env 180.0 y_axis in
      let pose_final5 : Pose := ((0.6, -0.38, 0.12)%float, quat_final) in
      let gripper_opening := (3.5 * dgripper)%float in
      let z_pre_grasp := 0.20%float in
      pick_place pose_initial5 pose_final5 gripper_opening z_pre_grasp
        jangles_neutral ;;;
      (* vaso 6 *)
      let quat_init := quaternionFromAxisAngle env 180.0 y_axis in
      let pose_initial : Pose := ((0.7, 0.32, 0.03)%float, quat_init) in
      let quat_final := quaternionFromAxisAngle env 180.0 y_axis in
      let pose_final : Pose := ((0.6, -0.42, 0.22)%float, quat_final) in
      let gripper_opening := (3.5 * dgripper)%float in
      let z_pre_grasp := 0.20%float in
      pick_place pose_initial pose_final gripper_opening z_pre_grasp
        jangles_neutral ;;;
      limb_move_to_neutral ;;;
      let* jangles_neutral := limb_joint_angles_call in
      head_display_image (folder +:+ "sleep1.png")
  end.

End Script.

(** ** Reading a trace *)

(** One call of [get_ik]: the target pose, the seed and how the call ended. *)
Record Solve :=
  { solve_pose : Pose; solve_seed : Dict; solve_result : Res JointResult }.

Definition solve_of (e : Event) : option Solve :=
  match e with
  | EvSolve p q r =>
      Some {| solve_pose := p; solve_seed := q; solve_result := r |}
  | _ => None
  end.

(** The solves of a run, in the order they were made. *)
Fixpoint solves (t : Trace) : list Solve :=
  match t with
  | [] => []
  | e :: t' =>
      match solve_of e with
      | Some s => s :: solves t'
      | None => solves t'
      end
  end.

(** What [get_ik] itself may emit. *)
Definition ik_event (e : Event) : bool :=
  match e with
  | EvWaitForService _ _ | EvServiceCall _ | EvLogErr _ | EvLogInfo _ => true
  | _ => false
  end.

Definition is_wait (e : Event) : bool :=
  match e with EvWaitForService _ _ => true | _ => false end.
Definition is_service_call (e : Event) : bool :=
  match e with EvServiceCall _ => true | _ => false end.
Definition is_arm_motion (e : Event) : bool :=
  match e with
  | EvMoveToJointPositions _ | EvMoveToNeutral => true
  | _ => false
  end.
Definition is_gripper_action (e : Event) : bool :=
  match e with EvSetPosition _ | EvGripperOpen => true | _ => false end.
Definition is_command (e : Event) : bool :=
  match e with
  | EvMoveToJointPositions _ | EvMoveToNeutral
  | EvSetPosition _ | EvGripperOpen | EvSleep _ => true
  | _ => false
  end.

(** The commands of a run, each with the number of solves made before it:
    the motion command of waypoint [k] is the [EvMoveToJointPositions] that
    carries [k]. *)
Fixpoint commands_from (k : nat) (t : Trace) : list (nat * Event) :=
  match t with
  | [] => []
  | EvSolve _ _ _ :: t' => commands_from (S k) t'
  | e :: t' =>
      if is_command e then (k, e) :: commands_from k t'
      else commands_from k t'
  end.
Definition commands (t : Trace) : list (nat * Event) := commands_from 0 t.

(** The name [get_ik] builds for the service. *)
Definition ik_service_name : string :=
  "ExternalTools/right/PositionKinematicsNode/IKService".

(** The request [get_ik] sends for [target] when the seed lookups gave the
    angles [p] and the clock read [time_now env h]. *)
Definition ik_request (env : Env) (h : Trace) (target : Pose) (p : list float)
    : SolvePositionIKRequest :=
  {| pose_stamp :=
       [{| header := {| stamp := time_now env h; frame_id := "base" |};
           pose := {| position := {| point_x := pos0 target.1;
                                     point_y := pos1 target.1;
                                     point_z := pos2 target.1 |};
                      orientation := {| orient_w := quat0 target.2;
                                        orient_x := quat1 target.2;
                                        orient_y := quat2 target.2;
                                        orient_z := quat3 target.2 |} |} |}];
     tip_names := ["right_hand"];
     seed_mode := SEED_USER env;
     seed_angles := [{| js_name := seed_names; js_position := p |}] |}.

(** The angles of the seed, name by name. *)
Definition seed_angles_of (q : Dict) (p : list float) : Prop :=
  Forall2 (λ k v, q !! k = Some v) seed_names p.

(** How the service behaved during a call of [get_ik] entered at history
    [h] that emitted [evs]: the call waited and the service did not become
    reachable, or the call invoked the service and got [a]. *)
Definition timed_out (env : Env) (h evs : Trace) : Prop :=
  EvWaitForService ik_service_name 5 ∈ evs
  ∧ wait_for_service env h ik_service_name 5 = Unavailable.
Definition answered (env : Env) (h evs : Trace) (a : CallOutcome) : Prop :=
  ∃ req, EvServiceCall req ∈ evs
         ∧ ik_client env (h ++ [EvWaitForService ik_service_name 5]) req = a.

(** What [main] has done when it reaches the gripper. *)
Definition startup : Trace :=
  [EvInitNode "MoveCartesian"; EvLimb "right"; EvHeadDisplay].

(** The gripper cannot be constructed, or it is constructed and its
    calibration fails; [e] is the exception of the failure. *)
Definition gripper_startup_fails (env : Env) (h : Trace) (e : Exn) : Prop :=
  gripper_new env (h ++ startup) = Some e
  ∨ (gripper_new env (h ++ startup) = None
     ∧ gripper_calibrate env (h ++ startup ++ [EvGripper "right_gripper"])
       = Some e).

(** A seed that has the seven joints [get_ik] reads. *)
Definition complete (q : Dict) : Prop :=
  Forall (λ k, is_Some (q !! k)) seed_names.

(** ** A concrete environment *)

(** The neutral configuration of the arm, as [limb.joint_angles()] would
    give it after [move_to_neutral()]. *)
Definition neutral : Dict :=
  dict_zip seed_names [0.0; -1.18; 0.0; 2.18; 0.0; 0.57; 3.3161]%float.

(** A service that is always reachable and answers the [k]-th solve of the
    run with the [k]-th code of [codes] (with [1] once the list is used up)
    and a solution a little away from the seed. *)
Definition demo_env (codes : list Z) : Env :=
  {| time_now := λ _, 0%Z;
     wait_for_service := λ _ _ _, Available;
     ik_client := λ h req,
       Response
         {| result_type := [default 1%Z (codes !! length (solves h))];
            joints :=
              map (λ s, {| js_name := js_name s;
                           js_position :=
                             map (λ x, (x + 0.1)%float) (js_position s) |})
                (seed_angles req) |};
     gripper_new := λ _, None;
     gripper_calibrate := λ _, None;
     limb_joint_angles := λ _, neutral;
     get_pkg_dir := λ pkg, "/ws/src/" +:+ pkg;
     SEED_USER := 1;
     SEED_CURRENT := 2;
     SEED_NS_MAP := 3;
     MAX_POSITION := 0.041667;
     quaternionFromAxisAngle := λ _ _, (0.0, 0.0, 1.0, 0.0)%float |}.

(** The same robot with a service that never becomes reachable. *)
Definition offline_env : Env :=
  {| time_now := λ _, 0%Z;
     wait_for_service := λ _ _ _, Unavailable;
     ik_client := λ _ _, CommunicationFault;
     gripper_new := λ _, None;
     gripper_calibrate := λ _, None;
     limb_joint_angles := λ _, neutral;
     get_pkg_dir := λ pkg, "/ws/src/" +:+ pkg;
     SEED_USER := 1;
     SEED_CURRENT := 2;
     SEED_NS_MAP := 3;
     MAX_POSITION := 0.041667;
     quaternionFromAxisAngle := λ _ _, (0.0, 0.0, 1.0, 0.0)%float |}.

(** The same robot without a gripper: the constructor raises [ValueError]. *)
Definition no_gripper_env : Env :=
  {| time_now := λ _, 0%Z;
     wait_for_service := λ _ _ _, Available;
     ik_client := λ _ _, CommunicationFault;
     gripper_new := λ _, Some ValueError;
     gripper_calibrate := λ _, None;
     limb_joint_angles := λ _, neutral;
     get_pkg_dir := λ pkg, "/ws/src/" +:+ pkg;
     SEED_USER := 1;
     SEED_CURRENT := 2;
     SEED_NS_MAP := 3;
     MAX_POSITION := 0.041667;
     quaternionFromAxisAngle := λ _ _, (0.0, 0.0, 1.0, 0.0)%float |}.

(** The first object of the demo. *)
Definition demo_quat : Quaternion := (0.0, 0.0, 1.0, 0.0)%float.
Definition demo_start : Pose := ((0.6, 0.50, 0.03)%float, demo_quat).
Definition demo_end : Pose := ((0.6, -0.5, 0.02)%float, demo_quat).

(** ** Runs of the first object *)

(** Every solve is valid. *)
Definition demo_run : Res () * Trace :=
  pick_place (demo_env []) demo_start demo_end 0.7 0.20 neutral [].
(** The solve of the approach waypoint finds no solution. *)
Definition run_invalid_approach : Res () * Trace :=
  pick_place (demo_env [0%Z]) demo_start demo_end 0.7 0.20 neutral [].
(** The solve of the grasp waypoint finds no solution. *)
Definition run_invalid_grasp : Res () * Trace :=
  pick_place (demo_env [1; 0]%Z) demo_start demo_end 0.7 0.20 neutral [].
(** The solve of the transfer waypoint finds no solution. *)
Definition run_invalid_transfer : Res () * Trace :=
  pick_place (demo_env [1; 1; 1; 0]%Z) demo_start demo_end 0.7 0.20 neutral [].
(** One call of [get_ik] from the neutral configuration. *)
Definition demo_solve : Res JointResult * Trace :=
  get_ik (demo_env []) demo_start neutral [].

(** One call of [get_ik] that finds no solution. *)
Definition demo_solve_invalid : Res JointResult * Trace :=
  get_ik (demo_env [0%Z]) demo_start neutral [].
(** The request of [demo_solve]. *)
Definition demo_request : SolvePositionIKRequest :=
  ik_request (demo_env []) [] demo_start
    [0.0; -1.18; 0.0; 2.18; 0.0; 0.57; 3.3161]%float.
(** The whole demo with a service that always finds a solution. *)
Definition demo_main : Res () * Trace := main (demo_env []) [].

(** ** Reading a request *)

(** The pose that a stamped message carries, as a tuple of the script. *)
Definition pose_of_msg (m : PoseStamped) : Pose :=
  ((point_x (position (pose m)), point_y (position (pose m)),
    point_z (position (pose m))),
   (orient_w (orientation (pose m)), orient_x (orientation (pose m)),
    orient_y (orientation (pose m)), orient_z (orientation (pose m)))).

(** A service that is always reachable in time and answers every request
    seeded with seven angles with a positive code and a solution for the
    seven joints. *)
Definition reliable (env : Env) : Prop :=
  (∀ h, wait_for_service env h ik_service_name 5 = Available)
  ∧ (∀ h req p,
       seed_angles req = [{| js_name := seed_names; js_position := p |}] →
       length p = 7 →
       ∃ code codes p' sols,
         ik_client env h req
         = Response {| result_type := code :: codes;
                       joints := {| js_name := seed_names;
                                    js_position := p' |} :: sols |}
         ∧ (0 < code)%Z ∧ length p' = 7).

(** The configuration that [main] reads with [limb.joint_angles()] after
    its first move to neutral, in a run entered at history [h]. *)
Definition neutral_reading (env : Env) (h : Trace) : Dict :=
  limb_joint_angles env
    (h ++ startup
       ++ [EvGripper "right_gripper"; EvCalibrate;
           EvDisplayImage
             ((get_pkg_dir env "sawyer_utec" +:+ "/images/") +:+ "up1.jpg");
           EvMoveToNeutral]).

(** ** Facts about traces *)

Lemma solves_app (t1 t2 : Trace) : solves (t1 ++ t2) = solves t1 ++ solves t2.
Proof.
  induction t1 as [|e t1 IH]; [done|].
  simpl. rewrite IH. by destruct (solve_of e).
Qed.

Lemma solves_ik_events (t : Trace) : forallb ik_event t = true → solves t = [].
Proof.
  induction t as [|e t IH]; [done|].
  simpl. intros [He Ht]%andb_prop. rewrite (IH Ht).
  by destruct e.
Qed.

Lemma commands_from_app (k : nat) (t1 t2 : Trace) :
  commands_from k (t1 ++ t2)
  = commands_from k t1 ++ commands_from (k + length (solves t1)) t2.
Proof.
  revert k. induction t1 as [|e t1 IH]; intros k.
  - simpl. by rewrite Nat.add_0_r.
  - destruct e; simpl; rewrite IH; try done.
    f_equal. f_equal. lia.
Qed.

Lemma commands_from_ik_events (k : nat) (t : Trace) :
  forallb ik_event t = true → commands_from k t = [].
Proof.
  induction t as [|e t IH]; [done|].
  simpl. intros [He Ht]%andb_prop. destruct e; try done; by apply IH.
Qed.

(** A command of a trace is one of its commands, under some tag. *)
Lemma command_in_commands (n : nat) (t : Trace) (e : Event) :
  is_command e = true → e ∈ t → ∃ k, (k, e) ∈ commands_from n t.
Proof.
  intros He. revert n. induction t as [|e' t IH]; intros n Hin.
  - by apply elem_of_nil in Hin.
  - apply elem_of_cons in Hin as [<-|Hin].
    + exists n. destruct e; simplify_eq/=; apply list_elem_of_here.
    + destruct e'; simpl;
        try (destruct (IH n Hin) as [k Hk]; exists k;
             first [by apply list_elem_of_further|done]).
      destruct (IH (S n) Hin) as [k Hk]. by exists k.
Qed.

(** ** Facts about [dict_zip] *)

Lemma fold_insert_snoc (l : list (string * float)) (x : string * float) (m : Dict) :
  fold_left (λ d kv, <[kv.1 := kv.2]> d) (l ++ [x]) m
  = <[x.1 := x.2]> (fold_left (λ d kv, <[kv.1 := kv.2]> d) l m).
Proof. by rewrite fold_left_app. Qed.

Lemma fold_insert_lookup_Some (l : list (string * float)) (m : Dict)
    (k : string) (v : float) :
  fold_left (λ d kv, <[kv.1 := kv.2]> d) l m !! k = Some v ↔
  (∃ i, l !! i = Some (k, v) ∧ ∀ j v', i < j → l !! j ≠ Some (k, v'))
  ∨ ((∀ j v', l !! j ≠ Some (k, v')) ∧ m !! k = Some v).
Proof.
  induction l as [|[k' v'] l IH] using rev_ind.
  - simpl. split.
    + intros H. right. split; [|done]. intros j w. by rewrite lookup_nil.
    + intros [(i & Hi & _)|[_ H]]; [by rewrite lookup_nil in Hi|done].
  - rewrite fold_insert_snoc. simpl. destruct (decide (k' = k)) as [->|Hne].
    + rewrite lookup_insert_eq. split.
      * intros [= ->]. left. exists (length l). split.
        { by rewrite lookup_app_r, Nat.sub_diag by lia. }
        intros j w Hj. rewrite lookup_ge_None_2; [done|].
        rewrite length_app. simpl. lia.
      * intros [(i & Hi & Hlast)|[Hno _]].
        -- destruct (decide (i = length l)) as [->|Hi'].
           { rewrite lookup_app_r, Nat.sub_diag in Hi by lia. by simplify_eq/=. }
           assert (i < length l).
           { apply lookup_lt_Some in Hi. rewrite length_app in Hi. simpl in Hi. lia. }
           destruct (Hlast (length l) v'); [lia|].
           by rewrite lookup_app_r, Nat.sub_diag by lia.
        -- destruct (Hno (length l) v').
           by rewrite lookup_app_r, Nat.sub_diag by lia.
    + rewrite lookup_insert_ne by done. rewrite IH. split.
      * intros [(i & Hi & Hlast)|[Hno Hm]].
        -- left. exists i. split; [by apply lookup_app_l_Some|].
           intros j w Hj Hjw. apply lookup_app_Some in Hjw as [Hjw|[_ Hjw]].
           { by apply (Hlast j w). }
           destruct (j - length l); simplify_eq/=.
        -- right. split; [|done]. intros j w Hjw.
           apply lookup_app_Some in Hjw as [Hjw|[_ Hjw]].
           { by apply (Hno j w). }
           destruct (j - length l); simplify_eq/=.
      * intros [(i & Hi & Hlast)|[Hno Hm]].
        -- apply lookup_app_Some in Hi as [Hi|[_ Hi]].
           2: { destruct (i - length l); simplify_eq/=. }
           left. exists i. split; [done|]. intros j w Hj Hjw.
           apply (Hlast j w Hj). by apply lookup_app_l_Some.
        -- right. split; [|done]. intros j w Hjw.
           apply (Hno j w). by apply lookup_app_l_Some.
Qed.

Lemma fold_insert_lookup_None (l : list (string * float)) (m : Dict)
    (k : string) :
  fold_left (λ d kv, <[kv.1 := kv.2]> d) l m !! k = None ↔
  (∀ j v', l !! j ≠ Some (k, v')) ∧ m !! k = None.
Proof.
  induction l as [|[k' v'] l IH] using rev_ind.
  - simpl. split; [|by intros [_ ?]].
    intros H. split; [|done]. intros j w. by rewrite lookup_nil.
  - rewrite fold_insert_snoc. simpl. destruct (decide (k' = k)) as [->|Hne].
    + rewrite lookup_insert_eq. split; [done|]. intros [Hno _].
      destruct (Hno (length l) v').
      by rewrite lookup_app_r, Nat.sub_diag by lia.
    + rewrite lookup_insert_ne by done. rewrite IH. split.
      * intros [Hno Hm]. split; [|done]. intros j w Hjw.
        apply lookup_app_Some in Hjw as [Hjw|[_ Hjw]].
        { by apply (Hno j w). }
        destruct (j - length l); simplify_eq/=.
      * intros [Hno Hm]. split; [|done]. intros j w Hjw.
        apply (Hno j w). by apply lookup_app_l_Some.
Qed.

(** X5. [dict(zip(names, values))] maps a key to the value paired with its
    last occurrence among the names that have a value: pairing stops at the
    shorter list and a later pair replaces an earlier one.  A key has no
    entry exactly when every occurrence of it lies beyond the values. *)
Theorem dict_zip_lookup (names : list string) (values : list float)
    (k : string) :
  (∀ v, dict_zip names values !! k = Some v ↔
        ∃ i, names !! i = Some k ∧ values !! i = Some v
             ∧ ∀ j, i < j → j < length values → names !! j ≠ Some k)
  ∧ (dict_zip names values !! k = None ↔
     ∀ i, names !! i = Some k → length values ≤ i).
Proof.
  unfold dict_zip. split.
  - intros v. rewrite fold_insert_lookup_Some. split.
    + intros [(i & Hi & Hlast)|[_ Hm]]; [|by rewrite lookup_empty in Hm].
      apply lookup_zip_with_Some in Hi as (k0 & v0 & ? & Hk & Hv).
      simplify_eq.
      exists i. split_and!; [done..|]. intros j Hj Hlen Hkj.
      destruct (lookup_lt_is_Some_2 values j Hlen) as [w Hw].
      apply (Hlast j w Hj). apply lookup_zip_with_Some. by exists k0, w.
    + intros (i & Hk & Hv & Hlast). left. exists i. split.
      { apply lookup_zip_with_Some. by exists k, v. }
      intros j w Hj Hjw.
      apply lookup_zip_with_Some in Hjw as (k0 & v0 & ? & Hk0 & Hv0).
      simplify_eq.
      apply (Hlast j Hj); [|done]. by eapply lookup_lt_Some.
  - rewrite fold_insert_lookup_None. split.
    + intros [Hno _] i Hi.
      destruct (decide (i < length values)) as [Hlt|]; [|lia].
      destruct (lookup_lt_is_Some_2 values i Hlt) as [w Hw].
      destruct (Hno i w). apply lookup_zip_with_Some. by exists k, w.
    + intros Hfar. split; [|apply lookup_empty]. intros j w Hjw.
      apply lookup_zip_with_Some in Hjw as (k0 & v0 & ? & Hk0 & Hv0).
      simplify_eq.
      apply lookup_lt_Some in Hv0. specialize (Hfar j Hk0). lia.
Qed.

Lemma seed_angles_of_inj (q : Dict) (p1 p2 : list float) :
  seed_angles_of q p1 → seed_angles_of q p2 → p1 = p2.
Proof.
  unfold seed_angles_of. generalize seed_names. intros names H1.
  revert p2. induction H1 as [|k v names p1 Hk _ IH]; intros p2 H2.
  - by inversion H2.
  - inversion H2 as [|? w ? p2' Hk' H2']; simplify_eq.
    f_equal; try congruence. by apply IH.
Qed.

Lemma dict_zip_seed_angles (p : list float) :
  length p = 7 → seed_angles_of (dict_zip seed_names p) p.
Proof.
  intros Hlen. do 8 (destruct p as [|? p]; try done).
  unfold seed_angles_of, seed_names. repeat constructor.
Qed.

(** ** Facts about [get_ik] *)

Section GetIK.

Variable env : Env.

Ltac run_script :=
  unfold get_ik, pose_to_dict_message, rospy_wait_for_service,
    rospy_service_proxy_call, rospy_logerr, rospy_loginfo, getitem, first,
    try_except, bind, ask, emit, external, ret, raise in *;
  simpl in *; rewrite ?app_nil_r in *.

(** Every way a call of [get_ik] can go. *)
Lemma get_ik_cases (target : Pose) (q : Dict) (h : Trace) :
  (∃ k, k ∈ seed_names ∧ q !! k = None
        ∧ get_ik env target q h = (Raise (KeyError k), []))
  ∨ (∃ p, seed_angles_of q p ∧
      let req := ik_request env h target p in
      let waited := EvWaitForService ik_service_name 5 in
      get_ik env target q h =
      match wait_for_service env h ik_service_name 5 with
      | Unavailable =>
          (Ret JointResult_new,
           [waited; EvLogErr (ServiceCallFailed ROSException)])
      | Available =>
          match ik_client env (h ++ [waited]) req with
          | CommunicationFault =>
              (Ret JointResult_new,
               [waited; EvServiceCall req;
                EvLogErr (ServiceCallFailed ServiceException)])
          | Response resp =>
              match result_type resp with
              | [] => (Raise IndexError, [waited; EvServiceCall req])
              | code :: _ =>
                  if (0 <? code)%Z then
                    let said :=
                      EvLogInfo (ValidJointsFromSeed
                        (default "None"
                          ((<[SEED_NS_MAP env := "Nullspace Setpoints"]>
                             (<[SEED_CURRENT env := "Current Joint Angles"]>
                               (<[SEED_USER env := "User Provided Seed"]> ∅))
                             : gmap Z string) !! code))) in
                    match joints resp with
                    | [] => (Raise IndexError,
                             [waited; EvServiceCall req; said])
                    | sol :: _ =>
                        let c := dict_zip (js_name sol) (js_position sol) in
                        (Ret {| jangles := c; valid := true |},
                         [waited; EvServiceCall req; said;
                          EvLogInfo (IKJointSolution c)])
                    end
                  else
                    (Ret JointResult_new,
                     [waited; EvServiceCall req; EvLogErr InvalidPose;
                      EvLogErr (ResultError code)])
              end
          end
      end).
Proof.
  destruct (q !! "right_j0") as [p0|] eqn:H0;
    [|left; exists "right_j0"; split_and!; [set_solver|done|]; run_script;
      by rewrite lookup_singleton_eq, H0].
  destruct (q !! "right_j1") as [p1|] eqn:H1;
    [|left; exists "right_j1"; split_and!; [set_solver|done|]; run_script;
      by rewrite lookup_singleton_eq, H0, H1].
  destruct (q !! "right_j2") as [p2|] eqn:H2;
    [|left; exists "right_j2"; split_and!; [set_solver|done|]; run_script;
      by rewrite lookup_singleton_eq, H0, H1, H2].
  destruct (q !! "right_j3") as [p3|] eqn:H3;
    [|left; exists "right_j3"; split_and!; [set_solver|done|]; run_script;
      by rewrite lookup_singleton_eq, H0, H1, H2, H3].
  destruct (q !! "right_j4") as [p4|] eqn:H4;
    [|left; exists "right_j4"; split_and!; [set_solver|done|]; run_script;
      by rewrite lookup_singleton_eq, H0, H1, H2, H3, H4].
  destruct (q !! "right_j5") as [p5|] eqn:H5;
    [|left; exists "right_j5"; split_and!; [set_solver|done|]; run_script;
      by rewrite lookup_singleton_eq, H0, H1, H2, H3, H4, H5].
  destruct (q !! "right_j6") as [p6|] eqn:H6;
    [|left; exists "right_j6"; split_and!; [set_solver|done|]; run_script;
      by rewrite lookup_singleton_eq, H0, H1, H2, H3, H4, H5, H6].
  right. exists [p0; p1; p2; p3; p4; p5; p6]. split.
  { unfold seed_angles_of, seed_names. repeat constructor; done. }
  run_script. rewrite lookup_singleton_eq, H0, H1, H2, H3, H4, H5, H6. simpl.
  rewrite ?app_nil_r.
  change ("ExternalTools/" +:+ "right" +:+ "/PositionKinematicsNode/IKService")
    with ik_service_name.
  unfold ik_request.
  repeat (case_match; simplify_eq/=; try done).
Qed.

Lemma seed_angles_complete (q : Dict) (p : list float) :
  seed_angles_of q p → complete q.
Proof.
  unfold seed_angles_of, complete. intros H.
  induction H; constructor; eauto.
Qed.

Lemma complete_lookup (q : Dict) (k : string) :
  complete q → k ∈ seed_names → q !! k = None → False.
Proof.
  unfold complete. rewrite Forall_forall. intros H Hk Hnone.
  destruct (H k Hk) as [v Hv]. congruence.
Qed.

(** [get_ik] emits nothing but waits, service calls and log records. *)
Lemma get_ik_events target q h r evs :
  get_ik env target q h = (r, evs) → forallb ik_event evs = true.
Proof.
  destruct (get_ik_cases target q h) as [(k & _ & _ & ->)|(p & _ & ->)];
    simpl; intros; repeat case_match; by simplify_eq/=.
Qed.

(** A result that is not valid is the untouched [JointResult()]. *)
Lemma get_ik_invalid target q h res evs :
  get_ik env target q h = (Ret res, evs) → valid res = false →
  res = JointResult_new.
Proof.
  destruct (get_ik_cases target q h) as [(k & _ & _ & ->)|(p & _ & ->)];
    simpl; intros; repeat case_match; by simplify_eq/=.
Qed.

(** With the empty dictionary as seed the first lookup already fails. *)
Lemma get_ik_empty target h :
  get_ik env target ∅ h = (Raise (KeyError "right_j0"), []).
Proof. run_script. by rewrite lookup_singleton_eq, lookup_empty. Qed.

Lemma call_get_ik_run target q h :
  ∃ r evs,
    call_get_ik env target q h = (r, evs ++ [EvSolve target q r])
    ∧ forallb ik_event evs = true
    ∧ (∀ res, r = Ret res → valid res = false → jangles res = ∅).
Proof.
  unfold call_get_ik.
  destruct (get_ik env target q h) as [r evs] eqn:Hrun.
  exists r, evs. split_and!; [done|by eapply get_ik_events|].
  intros res -> Hv. by rewrite (get_ik_invalid _ _ _ _ _ Hrun Hv).
Qed.

Lemma call_get_ik_empty target h :
  call_get_ik env target ∅ h
  = (Raise (KeyError "right_j0"),
     [EvSolve target ∅ (Raise (KeyError "right_j0"))]).
Proof. unfold call_get_ik. by rewrite get_ik_empty. Qed.

(** The same, counting the waits and the invocations of the call. *)
Lemma call_get_ik_run_once target q h :
  ∃ r ik,
    call_get_ik env target q h = (r, ik ++ [EvSolve target q r])
    ∧ forallb ik_event ik = true
    ∧ (∀ res, r = Ret res → valid res = false → jangles res = ∅)
    ∧ length (List.filter is_service_call ik) ≤ 1
    ∧ length (List.filter is_wait ik) ≤ 1.
Proof.
  unfold call_get_ik.
  destruct (get_ik env target q h) as [r evs] eqn:Hrun.
  exists r, evs. split_and!; [done|by eapply get_ik_events| | |].
  - intros res -> Hv. by rewrite (get_ik_invalid _ _ _ _ _ Hrun Hv).
  - destruct (get_ik_cases target q h) as [(k & _ & _ & Hc)|(p & _ & Hc)];
      simpl in Hc; rewrite Hrun in Hc;
      repeat case_match; simplify_eq/=; lia.
  - destruct (get_ik_cases target q h) as [(k & _ & _ & Hc)|(p & _ & Hc)];
      simpl in Hc; rewrite Hrun in Hc;
      repeat case_match; simplify_eq/=; lia.
Qed.

(** With a reliable service and a seed that has the seven joints the call
    returns a valid result that has the seven joints again. *)
Lemma call_get_ik_reliable target q h :
  reliable env → complete q →
  ∃ c ik,
    call_get_ik env target q h
    = (Ret {| jangles := c; valid := true |},
       ik ++ [EvSolve target q (Ret {| jangles := c; valid := true |})])
    ∧ forallb ik_event ik = true
    ∧ complete c.
Proof.
  intros [Hwait Hanswer] Hq. unfold call_get_ik.
  destruct (get_ik_cases target q h)
    as [(k & Hk & Hnone & _)|(p & Hp & Hcase)].
  { destruct (complete_lookup q k Hq Hk Hnone). }
  assert (length p = 7) as Hlen by by rewrite <- (Forall2_length _ _ _ Hp).
  simpl in Hcase. rewrite Hwait in Hcase.
  destruct (Hanswer (h ++ [EvWaitForService ik_service_name 5])
              (ik_request env h target p) p eq_refl Hlen)
    as (code & codes & p' & sols & Ha & Hpos & Hlen').
  rewrite Ha in Hcase. simpl in Hcase.
  apply Z.ltb_lt in Hpos. rewrite Hpos in Hcase. rewrite Hcase.
  eexists _, _. split_and!; [done|done|].
  eapply seed_angles_complete. by apply dict_zip_seed_angles.
Qed.

End GetIK.

(** ** Facts about [pick_place] *)

Section PickPlace.

Variable env : Env.

(** One solve of a run of [pick_place]: it is valid, or it is not and its
    result is the untouched [JointResult()], or it raises.  After a result
    that is not valid the next solve gets the empty dictionary. *)
Ltac step_solve H :=
  match type of H with
  | context [call_get_ik env ?p ∅ ?h] =>
      rewrite (call_get_ik_empty env p h) in H; simpl in H
  | context [call_get_ik env ?p ?q ?h] =>
      let r := fresh "r" in
      let ik := fresh "ik" in
      let Heq := fresh "Heq" in
      let Hik := fresh "Hik" in
      let Hinv := fresh "Hinv" in
      let c := fresh "c" in
      let e := fresh "e" in
      destruct (call_get_ik_run env p q h) as (r & ik & Heq & Hik & Hinv);
      rewrite Heq in H; clear Heq;
      destruct r as [[c [|]]|e];
      [ clear Hinv
      | specialize (Hinv _ eq_refl eq_refl); simpl in Hinv; subst c
      | clear Hinv ];
      simpl in H
  end.

Ltac read_trace :=
  repeat first
    [ progress simpl
    | rewrite solves_app
    | rewrite commands_from_app
    | rewrite solves_ik_events by assumption
    | rewrite commands_from_ik_events by assumption ].

(** Runs [pick_place] in [H] along every path and reads the trace. *)
Ltac run_pick_place H :=
  unfold pick_place, bind, when, limb_move_to_joint_positions,
    gripper_set_position, gripper_open, rospy_sleep, emit, ret in H;
  simpl in H;
  repeat step_solve H;
  simplify_eq;
  unfold commands;
  read_trace.

Ltac at_index i := repeat (destruct i as [|i]; simplify_eq/=).

(** C3. For every start pose [(ps, qs)], end pose [(pe, qe)] and clearance
    [hgt], the poses that a run of [pick_place] hands to the solver are, in
    order, the six waypoints approach, grasp, lift, transfer, place and
    retreat: a run never solves anything else or in another order, and a
    run that returns has solved all six. *)
Theorem pick_place_waypoints
    (xs ys zs xe ye ze : float) (qs qe : Quaternion)
    (gripper_opening hgt : float) (qinit : Dict) (h : Trace)
    (r : Res ()) (evs : Trace) :
  pick_place env ((xs, ys, zs), qs) ((xe, ye, ze), qe) gripper_opening hgt
    qinit h = (r, evs) →
  let plan : list Pose :=
    [ ((xs, ys, (zs + hgt)%float), qs);
      ((xs, ys, zs), qs);
      ((xs, ys, (zs + hgt)%float), qs);
      ((xe, ye, (ze + hgt)%float), qe);
      ((xe, ye, ze), qe);
      ((xe, ye, (ze + hgt)%float), qe) ] in
  map solve_pose (solves evs) `prefix_of` plan
  ∧ (r = Ret () → map solve_pose (solves evs) = plan).
Proof.
  intros H. run_pick_place H.
  all: split; [by eexists|done].
Qed.

(** C4. If the solve of a waypoint returns a valid result with
    configuration [c], the seed handed to the solve of the next waypoint is
    [c].  Waypoint [i+1] is entry [i] of [solves]. *)
Theorem valid_solve_seeds_next
    (pose_initial pose_final : Pose) (gripper_opening hgt : float)
    (qinit : Dict) (h : Trace) (r : Res ()) (evs : Trace)
    (i : nat) (s s' : Solve) (c : Dict) :
  pick_place env pose_initial pose_final gripper_opening hgt qinit h
    = (r, evs) →
  solves evs !! i = Some s →
  solves evs !! S i = Some s' →
  solve_result s = Ret {| jangles := c; valid := true |} →
  solve_seed s' = c.
Proof.
  intros H. run_pick_place H.
  all: intros Hi Hi' Hs; by at_index i.
Qed.

(** The first solve is seeded with [qinit]. *)
Lemma first_solve_seed
    (pose_initial pose_final : Pose) (gripper_opening hgt : float)
    (qinit : Dict) (h : Trace) (r : Res ()) (evs : Trace) :
  pick_place env pose_initial pose_final gripper_opening hgt qinit h
    = (r, evs) →
  ∃ s, solves evs !! 0 = Some s ∧ solve_seed s = qinit.
Proof.
  intros H. run_pick_place H.
  all: by eexists.
Qed.

(** X10. What the script does after a solve that is not valid: the next
    solve gets the empty dictionary of the class and dies on its first
    lookup, and the run ends with that exception. *)
Lemma invalid_solve_starves_next
    (pose_initial pose_final : Pose) (gripper_opening hgt : float)
    (qinit : Dict) (h : Trace) (r : Res ()) (evs : Trace)
    (i : nat) (s s' : Solve) (res : JointResult) :
  pick_place env pose_initial pose_final gripper_opening hgt qinit h
    = (r, evs) →
  solves evs !! i = Some s →
  solves evs !! S i = Some s' →
  solve_result s = Ret res →
  valid res = false →
  solve_seed s' = ∅
  ∧ solve_result s' = Raise (KeyError "right_j0")
  ∧ r = Raise (KeyError "right_j0").
Proof.
  intros H. run_pick_place H.
  all: intros Hi Hi' Hs Hv; by at_index i.
Qed.

(** X11. A motion commanded for a waypoint goes to the configuration that
    the solve of this waypoint returned as valid: no motion is commanded
    for a waypoint whose solve did not return a valid result. *)
Lemma no_motion_without_valid_solve
    (pose_initial pose_final : Pose) (gripper_opening hgt : float)
    (qinit : Dict) (h : Trace) (r : Res ()) (evs : Trace)
    (i j : nat) (s : Solve) (c : Dict) :
  pick_place env pose_initial pose_final gripper_opening hgt qinit h
    = (r, evs) →
  solves evs !! i = Some s →
  commands evs !! j = Some (S i, EvMoveToJointPositions c) →
  solve_result s = Ret {| jangles := c; valid := true |}.
Proof.
  intros H. run_pick_place H.
  all: intros Hi Hj; at_index j; by at_index i.
Qed.

(** X12. A run that returns has closed the gripper to [gripper_opening]
    and then opened it, once each. *)
Lemma returning_run_grips_once
    (pose_initial pose_final : Pose) (gripper_opening hgt : float)
    (qinit : Dict) (h : Trace) (evs : Trace) :
  pick_place env pose_initial pose_final gripper_opening hgt qinit h
    = (Ret (), evs) →
  List.filter is_gripper_action (commands evs).*2
  = [EvSetPosition gripper_opening; EvGripperOpen].
Proof.
  intros H. run_pick_place H.
  all: done.
Qed.

(** C6. In the command trace of a run, the gripper is closed after the
    motion of the grasp waypoint and before the motion of the lift waypoint,
    it is opened after the motion of the place waypoint and before the
    motion of the retreat waypoint, whenever these motions are commanded,
    and each of the two gripper actions is at once followed by a pause of
    one second.  A command carries the number of solves made before it, so
    the motions of grasp, lift, place and retreat carry 2, 3, 5 and 6. *)
Theorem gripper_between_motions
    (pose_initial pose_final : Pose) (gripper_opening hgt : float)
    (qinit : Dict) (h : Trace) (r : Res ()) (evs : Trace) :
  pick_place env pose_initial pose_final gripper_opening hgt qinit h
    = (r, evs) →
  let cs := commands evs in
  (∀ i j k c g, cs !! i = Some (2, EvMoveToJointPositions c) →
                cs !! j = Some (k, EvSetPosition g) → i < j)
  ∧ (∀ i j k c g, cs !! i = Some (k, EvSetPosition g) →
                  cs !! j = Some (3, EvMoveToJointPositions c) → i < j)
  ∧ (∀ i j k c, cs !! i = Some (5, EvMoveToJointPositions c) →
                cs !! j = Some (k, EvGripperOpen) → i < j)
  ∧ (∀ i j k c, cs !! i = Some (k, EvGripperOpen) →
                cs !! j = Some (6, EvMoveToJointPositions c) → i < j)
  ∧ (∀ i k g, cs !! i = Some (k, EvSetPosition g) →
              g = gripper_opening ∧ cs !! S i = Some (k, EvSleep 1))
  ∧ (∀ i k, cs !! i = Some (k, EvGripperOpen) →
            cs !! S i = Some (k, EvSleep 1)).
Proof.
  intros H. run_pick_place H.
  all: split_and!;
    [ intros i j k cfg g Hi Hj | intros i j k cfg g Hi Hj
    | intros i j k cfg Hi Hj | intros i j k cfg Hi Hj
    | intros i k g Hi | intros i k Hi ];
    at_index i; try done; at_index j; lia.
Qed.

(** C7. For the first object of the demo, start [(0.6, 0.5, 0.03)], end
    [(0.6, -0.5, 0.02)], one orientation [q] for both, clearance [0.20] and
    opening [0.7], the waypoints are at z = 0.23, 0.03 and 0.23 over
    [(0.6, 0.5)] and at z = 0.22, 0.02 and 0.22 over [(0.6, -0.5)], in this
    order; and when every solve returns a valid result the commands are six
    arm motions, to the six configurations returned, with the gripper
    closed to 0.7 after the second and opened after the fifth. *)
Theorem first_object_scenario
    (q : Quaternion) (qinit : Dict) (h : Trace) (r : Res ()) (evs : Trace) :
  pick_place env ((0.6, 0.5, 0.03)%float, q) ((0.6, -0.5, 0.02)%float, q)
    0.7 0.20 qinit h = (r, evs) →
  let plan : list Pose :=
    [ ((0.6, 0.5, 0.23)%float, q);
      ((0.6, 0.5, 0.03)%float, q);
      ((0.6, 0.5, 0.23)%float, q);
      ((0.6, -0.5, 0.22)%float, q);
      ((0.6, -0.5, 0.02)%float, q);
      ((0.6, -0.5, 0.22)%float, q) ] in
  map solve_pose (solves evs) `prefix_of` plan
  ∧ (Forall (λ s, ∃ c, solve_result s = Ret {| jangles := c; valid := true |})
       (solves evs) →
     map solve_pose (solves evs) = plan
     ∧ ∃ c1 c2 c3 c4 c5 c6,
         map solve_result (solves evs)
         = [ Ret {| jangles := c1; valid := true |};
             Ret {| jangles := c2; valid := true |};
             Ret {| jangles := c3; valid := true |};
             Ret {| jangles := c4; valid := true |};
             Ret {| jangles := c5; valid := true |};
             Ret {| jangles := c6; valid := true |} ]
         ∧ commands evs
           = [ (1, EvMoveToJointPositions c1);
               (2, EvMoveToJointPositions c2);
               (2, EvSetPosition 0.7);
               (2, EvSleep 1);
               (3, EvMoveToJointPositions c3);
               (4, EvMoveToJointPositions c4);
               (5, EvMoveToJointPositions c5);
               (5, EvGripperOpen);
               (5, EvSleep 1);
               (6, EvMoveToJointPositions c6) ]).
Proof.
  intros H. run_pick_place H.
  all: split; [by eexists|].
  all: intros Hall;
    repeat match goal with
           | Hs : Forall _ (_ :: _) |- _ =>
               apply Forall_cons in Hs as [[? ?] Hs]
           end;
    simplify_eq/=.
  split; [done|]. by eexists _, _, _, _, _, _.
Qed.

(** *** More about [pick_place] *)

Ltac step_solve_once H :=
  match type of H with
  | context [call_get_ik env ?p ∅ ?h] =>
      rewrite (call_get_ik_empty env p h) in H; simpl in H
  | context [call_get_ik env ?p ?q ?h] =>
      let r := fresh "r" in
      let ik := fresh "ik" in
      let Heq := fresh "Heq" in
      let Hik := fresh "Hik" in
      let Hinv := fresh "Hinv" in
      let Hcalls := fresh "Hcalls" in
      let Hwaits := fresh "Hwaits" in
      let c := fresh "c" in
      let e := fresh "e" in
      destruct (call_get_ik_run_once env p q h)
        as (r & ik & Heq & Hik & Hinv & Hcalls & Hwaits);
      rewrite Heq in H; clear Heq;
      destruct r as [[c [|]]|e];
      [ clear Hinv
      | specialize (Hinv _ eq_refl eq_refl); simpl in Hinv; subst c
      | clear Hinv ];
      simpl in H
  end.

Ltac step_reliable H Hrel :=
  match type of H with
  | context [call_get_ik env ?p ?q ?h] =>
      let c := fresh "c" in
      let ik := fresh "ik" in
      let Heq := fresh "Heq" in
      let Hik := fresh "Hik" in
      let Hc := fresh "Hc" in
      let Hq := fresh "Hq" in
      assert (complete q) as Hq by assumption;
      destruct (call_get_ik_reliable env p q h Hrel Hq)
        as (c & ik & Heq & Hik & Hc);
      rewrite Heq in H; clear Heq; simpl in H
  end.

Ltac unfold_pick_place H :=
  unfold pick_place, bind, when, limb_move_to_joint_positions,
    gripper_set_position, gripper_open, rospy_sleep, emit, ret in H;
  simpl in H.

Ltac in_list :=
  repeat match goal with
         | H : _ ∈ [] |- _ => by apply elem_of_nil in H
         | H : _ ∈ _ :: _ |- _ =>
             apply elem_of_cons in H as [H|H]; simplify_eq/=
         end.

(** A run makes between one and six solves, and six when it returns. *)
Lemma pick_place_solves_count
    (pose_initial pose_final : Pose) (gripper_opening hgt : float)
    (qinit : Dict) (h : Trace) (r : Res ()) (evs : Trace) :
  pick_place env pose_initial pose_final gripper_opening hgt qinit h
    = (r, evs) →
  1 ≤ length (solves evs) ≤ 6 ∧ (r = Ret () → length (solves evs) = 6).
Proof.
  intros H. run_pick_place H.
  all: split; [lia|done].
Qed.

(** The gripper is only ever closed to [gripper_opening]. *)
Lemma pick_place_set_position
    (pose_initial pose_final : Pose) (gripper_opening hgt : float)
    (qinit : Dict) (h : Trace) (r : Res ()) (evs : Trace) (g : float) :
  pick_place env pose_initial pose_final gripper_opening hgt qinit h
    = (r, evs) →
  EvSetPosition g ∈ evs → g = gripper_opening.
Proof.
  intros H Hin.
  apply (command_in_commands 0) in Hin as [k Hin]; [|done].
  revert Hin. run_pick_place H.
  all: intros Hin; by in_list.
Qed.

(** X7. [pick_place] returns exactly when none of its solves raises, and
    then it has made all six solves, the first five with a valid result;
    when it raises, the exception is the one of the solve it made last. *)
Theorem pick_place_outcome
    (pose_initial pose_final : Pose) (gripper_opening hgt : float)
    (qinit : Dict) (h : Trace) (r : Res ()) (evs : Trace) :
  pick_place env pose_initial pose_final gripper_opening hgt qinit h
    = (r, evs) →
  (r = Ret () ↔
   Forall (λ s, ∃ res, solve_result s = Ret res) (solves evs))
  ∧ (r = Ret () →
     length (solves evs) = 6
     ∧ ∀ i s, i < 5 → solves evs !! i = Some s →
              ∃ c, solve_result s = Ret {| jangles := c; valid := true |})
  ∧ (∀ e, r = Raise e →
          ∃ s, last (solves evs) = Some s ∧ solve_result s = Raise e).
Proof.
  intros H. run_pick_place H.
  all: split_and!;
    [ split;
      [ first
          [ by intros ?; simplify_eq
          | intros _; repeat (apply Forall_cons_2; [by eexists|]);
            apply Forall_nil_2 ]
      | intros Hall;
        repeat match goal with
               | Hs : Forall _ (_ :: _) |- _ =>
                   apply Forall_cons in Hs as [[? ?] Hs]
               end;
        by simplify_eq/= ]
    | first
        [ by intros ?; simplify_eq
        | intros _; split; [done|];
          intros i s Hi Hs; at_index i; first [by eexists|lia] ]
    | first
        [ by intros ? ?; simplify_eq
        | intros ? ?; simplify_eq; by eexists ] ].
Qed.

(** X8. A run waits for the service and invokes it at most once for each
    solve it makes, it makes at most six solves, and it commands at most
    one motion for each solve. *)
Theorem pick_place_budget
    (pose_initial pose_final : Pose) (gripper_opening hgt : float)
    (qinit : Dict) (h : Trace) (r : Res ()) (evs : Trace) :
  pick_place env pose_initial pose_final gripper_opening hgt qinit h
    = (r, evs) →
  length (List.filter is_service_call evs) ≤ length (solves evs)
  ∧ length (List.filter is_wait evs) ≤ length (solves evs)
  ∧ length (List.filter is_arm_motion (commands evs).*2)
    ≤ length (solves evs)
  ∧ length (solves evs) ≤ 6.
Proof.
  intros H. unfold_pick_place H.
  repeat step_solve_once H.
  all: simplify_eq; unfold commands; read_trace.
  all: repeat (progress (rewrite ?List.filter_app, ?length_app; simpl)).
  all: lia.
Qed.

(** X9. With a reliable service and an initial configuration that has the
    seven joints [pick_place] returns: all six solves are valid, each is
    seeded with seven joints and returns seven joints, and six motions are
    commanded. *)
Theorem pick_place_reliable_returns
    (pose_initial pose_final : Pose) (gripper_opening hgt : float)
    (qinit : Dict) (h : Trace) (r : Res ()) (evs : Trace) :
  reliable env →
  complete qinit →
  pick_place env pose_initial pose_final gripper_opening hgt qinit h
    = (r, evs) →
  r = Ret ()
  ∧ length (solves evs) = 6
  ∧ Forall (λ s, complete (solve_seed s)
                 ∧ ∃ c, solve_result s = Ret {| jangles := c; valid := true |}
                        ∧ complete c) (solves evs)
  ∧ length (List.filter is_arm_motion (commands evs).*2) = 6.
Proof.
  intros Hrel Hqinit H. unfold_pick_place H.
  do 6 step_reliable H Hrel.
  simplify_eq. unfold commands. read_trace.
  split_and!; [done|done| |done].
  repeat (apply Forall_cons_2; [split; [done|by eexists]|]).
  apply Forall_nil_2.
Qed.

End PickPlace.

(** ** The claims about [get_ik] *)

Section GetIKClaims.

Variable env : Env.

Ltac merge_eqs :=
  repeat match goal with
         | H1 : ?x = _, H2 : ?x = _ |- _ => rewrite H1 in H2; simplify_eq/=
         end.

Ltac member :=
  repeat first [apply list_elem_of_here|apply list_elem_of_further].
Ltac members :=
  repeat match goal with
         | H : _ ∈ [] |- _ => by apply elem_of_nil in H
         | H : _ ∈ _ :: _ |- _ => apply elem_of_cons in H as [H|H]; simplify_eq/=
         end.

(** C5. One call of [get_ik] waits at most once for the service, with a
    timeout of 5, and invokes it at most once.  It returns a result that is
    not valid exactly when the service did not become reachable in time, or
    the invocation failed, or the first result code of the response is not
    positive; with a positive code it returns a valid result whose
    configuration pairs the joint names of the solution with its
    positions.  With a seed that has the seven joints the call does reach
    the wait. *)
Theorem get_ik_single_attempt
    (target : Pose) (q : Dict) (h : Trace) (r : Res JointResult)
    (evs : Trace) :
  get_ik env target q h = (r, evs) →
  length (List.filter is_service_call evs) ≤ 1
  ∧ (List.filter is_wait evs = []
     ∨ List.filter is_wait evs = [EvWaitForService ik_service_name 5])
  ∧ ((∃ res, r = Ret res ∧ valid res = false) ↔
     timed_out env h evs
     ∨ answered env h evs CommunicationFault
     ∨ ∃ resp code rest,
         answered env h evs (Response resp)
         ∧ result_type resp = code :: rest ∧ (code ≤ 0)%Z)
  ∧ (∀ resp code rest sol sols,
       answered env h evs (Response resp) →
       result_type resp = code :: rest → (0 < code)%Z →
       joints resp = sol :: sols →
       r = Ret {| jangles := dict_zip (js_name sol) (js_position sol);
                  valid := true |})
  ∧ (complete q → EvWaitForService ik_service_name 5 ∈ evs).
Proof.
  unfold timed_out, answered. intros Hrun.
  destruct (get_ik_cases env target q h)
    as [(k & Hk & Hnone & Hcase)|(p & Hp & Hcase)].
  { rewrite Hrun in Hcase. simplify_eq/=. split_and!.
    - lia.
    - by left.
    - split; [by intros (? & ? & ?)|].
      intros [[? ?]|[(? & ? & ?)|(? & ? & ? & (? & ? & ?) & ? & ?)]];
        members.
    - intros ????? (? & ? & ?). members.
    - intros Hq. destruct (complete_lookup q k Hq Hk Hnone). }
  simpl in *. rewrite Hrun in Hcase. clear Hrun.
  destruct (wait_for_service env h ik_service_name 5) eqn:Hw;
    [destruct (ik_client env _ _) as [|resp] eqn:Ha;
      [|destruct (result_type resp) as [|code rest] eqn:Hcode;
        [|destruct (0 <? code)%Z eqn:Hpos;
          [apply Z.ltb_lt in Hpos;
           destruct (joints resp) as [|sol sols] eqn:Hsol
          |apply Z.ltb_ge in Hpos]]]|].
  all: simplify_eq/=; split_and!;
    [ lia
    | by right
    | split;
      [ intros (res & ? & ?); simplify_eq/=;
        first
          [ left; split; [member|done]
          | right; left; eexists; split; [member|done]
          | right; right; eexists _, _, _; split_and!;
            [eexists; split; [member|done]|done|done] ]
      | intros [[? ?]|[(? & ? & ?)|(? & ? & ? & (? & ? & ?) & ? & ?)]];
        members; merge_eqs; first [lia|by eexists] ]
    | intros ????? (? & ? & ?) ???; members; merge_eqs; first [done|lia]
    | intros _; member ].
Qed.

(** C10. A result of [get_ik] that is not valid carries the empty
    dictionary.  The seed of a call is read at each of the seven names in
    turn: when one of them is absent the call raises [KeyError] for an
    absent name before it has done anything else, and a call that does not
    end in a [KeyError] had a seed with all seven. *)
Theorem get_ik_invalid_is_empty_and_seed_lookup
    (target : Pose) (q : Dict) (h : Trace) :
  (∀ res evs, get_ik env target q h = (Ret res, evs) → valid res = false →
              jangles res = ∅ ∧ ∀ k, jangles res !! k = None)
  ∧ (∀ k, k ∈ seed_names → q !! k = None →
          ∃ k', k' ∈ seed_names ∧ q !! k' = None
                ∧ get_ik env target q h = (Raise (KeyError k'), []))
  ∧ (∀ r evs, get_ik env target q h = (r, evs) →
              (∀ k, r ≠ Raise (KeyError k)) → complete q).
Proof.
  split_and!.
  - intros res evs Hrun Hv.
    rewrite (get_ik_invalid env _ _ _ _ _ Hrun Hv). simpl.
    split; [done|]. intros k. apply lookup_empty.
  - intros k Hk Hnone.
    destruct (get_ik_cases env target q h)
      as [(k' & Hk' & Hnone' & Hrun)|(p & Hp & _)]; [by exists k'|].
    destruct (complete_lookup q k (seed_angles_complete q p Hp) Hk Hnone).
  - intros r evs Hrun Hr.
    destruct (get_ik_cases env target q h)
      as [(k' & _ & _ & Hrun')|(p & Hp & _)].
    + rewrite Hrun in Hrun'. simplify_eq. by destruct (Hr k').
    + by eapply seed_angles_complete.
Qed.

(** X1. Whenever [get_ik] invokes the service, the request holds one pose,
    stamped in frame [base] with the clock of the call, that reads back as
    the target; the tip [right_hand]; the seed mode [SEED_USER]; and one
    seed, which lists the seven joints with the seven angles that
    [q_initial] has for them, in that order. *)
Theorem get_ik_request
    (target : Pose) (q : Dict) (h : Trace) (r : Res JointResult)
    (evs : Trace) (req : SolvePositionIKRequest) :
  get_ik env target q h = (r, evs) →
  EvServiceCall req ∈ evs →
  ∃ m p,
    pose_stamp req = [m]
    ∧ pose_of_msg m = target
    ∧ frame_id (header m) = "base"
    ∧ stamp (header m) = time_now env h
    ∧ tip_names req = ["right_hand"]
    ∧ seed_mode req = SEED_USER env
    ∧ seed_angles req = [{| js_name := seed_names; js_position := p |}]
    ∧ seed_angles_of q p
    ∧ length p = 7.
Proof.
  intros Hrun Hin.
  destruct (get_ik_cases env target q h)
    as [(k & _ & _ & Hcase)|(p & Hp & Hcase)].
  { rewrite Hrun in Hcase. simplify_eq. members. }
  assert (length p = 7) as Hlen by by rewrite <- (Forall2_length _ _ _ Hp).
  simpl in Hcase. rewrite Hrun in Hcase.
  assert (req = ik_request env h target p) as ->.
  { repeat case_match; simplify_eq/=; members; done. }
  eexists _, p. unfold ik_request, pose_of_msg. simpl.
  split_and!; try done.
  by destruct target as [[[? ?] ?] [[[? ?] ?] ?]].
Qed.

(** X2. The exceptions of the service never leave [get_ik].  A call that
    raises does so with [KeyError], before it has done anything, for a
    seed name that [q_initial] lacks, or with [IndexError], after the
    service has answered with an empty list of result codes or, under a
    positive code, with an empty list of solutions. *)
Theorem get_ik_raises_only
    (target : Pose) (q : Dict) (h : Trace) (e : Exn) (evs : Trace) :
  get_ik env target q h = (Raise e, evs) →
  (∃ k, e = KeyError k ∧ k ∈ seed_names ∧ q !! k = None ∧ evs = [])
  ∨ (e = IndexError
     ∧ ∃ resp, answered env h evs (Response resp)
               ∧ (result_type resp = []
                  ∨ (∃ code codes, result_type resp = code :: codes
                                   ∧ (0 < code)%Z ∧ joints resp = []))).
Proof.
  unfold answered. intros Hrun.
  destruct (get_ik_cases env target q h)
    as [(k & Hk & Hnone & Hcase)|(p & Hp & Hcase)].
  { rewrite Hrun in Hcase. simplify_eq. left. by exists k. }
  simpl in Hcase. rewrite Hrun in Hcase. clear Hrun. right.
  destruct (wait_for_service env h ik_service_name 5) eqn:Hw;
    [destruct (ik_client env _ _) as [|resp] eqn:Ha;
      [|destruct (result_type resp) as [|code rest] eqn:Hcode;
        [|destruct (0 <? code)%Z eqn:Hpos;
          [apply Z.ltb_lt in Hpos;
           destruct (joints resp) as [|sol sols] eqn:Hsol|]]]|].
  all: simplify_eq/=.
  all: split; [done|]; exists resp; split;
    [eexists; split; [member|done]|].
  - by left.
  - right. by exists code, rest.
Qed.

(** X3. [get_ik] writes an error record exactly when it returns a result
    that is not valid, and a valid result is returned with its
    configuration written to the log. *)
Theorem get_ik_logs_error_iff_invalid
    (target : Pose) (q : Dict) (h : Trace) (r : Res JointResult)
    (evs : Trace) :
  get_ik env target q h = (r, evs) →
  ((∃ m, EvLogErr m ∈ evs) ↔ (∃ res, r = Ret res ∧ valid res = false))
  ∧ (∀ c, r = Ret {| jangles := c; valid := true |} →
          EvLogInfo (IKJointSolution c) ∈ evs).
Proof.
  intros Hrun.
  destruct (get_ik_cases env target q h)
    as [(k & Hk & Hnone & Hcase)|(p & Hp & Hcase)].
  { rewrite Hrun in Hcase. simplify_eq. split; [|done].
    split; [intros (? & ?); members|by intros (? & ? & ?)]. }
  simpl in Hcase. rewrite Hrun in Hcase. clear Hrun.
  repeat case_match; simplify_eq/=.
  all: split;
    [ split;
      [ intros (? & ?); members; by eexists
      | intros (? & ? & ?); simplify_eq/=; eexists; member ]
    | intros; simplify_eq/=; member ].
Qed.

(** X4. [get_ik] commands nothing: whatever its outcome, its events are
    waits, service calls and log records, so it contributes no motion, no
    gripper action and no pause to a run. *)
Theorem get_ik_commands_nothing
    (target : Pose) (q : Dict) (h : Trace) (r : Res JointResult)
    (evs : Trace) (k : nat) :
  get_ik env target q h = (r, evs) →
  Forall (λ e, is_command e = false) evs
  ∧ commands_from k evs = []
  ∧ solves evs = [].
Proof.
  intros Hrun. pose proof (get_ik_events env _ _ _ _ _ Hrun) as Hik.
  split_and!;
    [|by apply commands_from_ik_events|by apply solves_ik_events].
  clear Hrun. induction evs as [|e evs' IH]; [constructor|].
  simpl in Hik. apply andb_prop in Hik as [He Hik].
  constructor; [by destruct e|by apply IH].
Qed.

(** X6. A configuration paired from the seven joint names and seven
    angles goes through [get_ik] unchanged when it is used as a seed: the
    call does not fail on a lookup, it reaches the wait, and every request
    it sends carries exactly these seven angles. *)
Theorem get_ik_resends_solution
    (target : Pose) (p : list float) (h : Trace) (r : Res JointResult)
    (evs : Trace) :
  length p = 7 →
  get_ik env target (dict_zip seed_names p) h = (r, evs) →
  (∀ k, r ≠ Raise (KeyError k))
  ∧ EvWaitForService ik_service_name 5 ∈ evs
  ∧ (∀ req, EvServiceCall req ∈ evs →
            seed_angles req
            = [{| js_name := seed_names; js_position := p |}]).
Proof.
  intros Hlen Hrun. pose proof (dict_zip_seed_angles p Hlen) as Hseed.
  destruct (get_ik_cases env target (dict_zip seed_names p) h)
    as [(k & Hk & Hnone & _)|(p' & Hp' & Hcase)].
  { destruct (complete_lookup _ k (seed_angles_complete _ _ Hseed) Hk Hnone). }
  rewrite (seed_angles_of_inj _ _ _ Hp' Hseed) in Hcase. clear Hp'.
  simpl in Hcase. rewrite Hrun in Hcase. clear Hrun.
  repeat case_match; simplify_eq/=.
  all: split_and!; [done|member|intros req Hin; by members].
Qed.

End GetIKClaims.

(** ** The claim about [main] *)

(** C8. If the gripper cannot be constructed or calibrated when [main]
    starts, the run stops there: [main] returns after its error record when
    the failure is a [ValueError] and dies of the exception otherwise, and
    in either case the trace holds no motion of the arm, to neutral or to a
    waypoint, and no [set_position] or [open] of the gripper. *)
Theorem no_motion_without_gripper
    (env : Env) (h : Trace) (e : Exn) (r : Res ()) (evs : Trace) :
  gripper_startup_fails env h e →
  main env h = (r, evs) →
  r = (if value_error e then Ret () else Raise e)
  ∧ Forall (λ ev, is_arm_motion ev = false ∧ is_gripper_action ev = false)
      evs.
Proof.
  unfold gripper_startup_fails, startup.
  intros Hfail Hrun.
  unfold main, try_except, bind, rospy_init_node, intera_Limb,
    intera_HeadDisplay, intera_Gripper, gripper_calibrate_call, rospy_logerr,
    external, emit, ret in Hrun.
  simpl in Hrun. rewrite <- ?app_assoc in Hrun. simpl in Hrun.
  destruct Hfail as [Hnew|[Hnew Hcal]].
  - rewrite Hnew in Hrun. simpl in Hrun.
    destruct e; simplify_eq/=; split; try done; repeat constructor.
  - rewrite Hnew in Hrun. simpl in Hrun.
    rewrite <- ?app_assoc in Hrun. simpl in Hrun, Hcal.
    rewrite Hcal in Hrun. simpl in Hrun.
    destruct e; simplify_eq/=; split; try done; repeat constructor.
Qed.

(** ** The script on concrete runs *)

Lemma neutral_complete : complete neutral.
Proof. repeat constructor; by eexists. Qed.

Lemma neutral_not_empty : neutral ≠ ∅.
Proof.
  intros H. apply (f_equal (λ d : Dict, d !! "right_j0")) in H.
  by vm_compute in H.
Qed.

(** With a gripper and a service that always finds a solution [main] runs
    to its end: two moves to neutral and six motions for each of the six
    objects. *)
Lemma main_runs_with_gripper :
  (main (demo_env []) []).1 = Ret ()
  ∧ length (List.filter is_arm_motion (main (demo_env []) []).2) = 38.
Proof. split; by vm_compute. Qed.

(** C1. The solve of the approach waypoint finds no solution.  No motion is
    commanded for that waypoint, but the seed of the next solve is not the
    seed [neutral] the run was entered with: it is the empty dictionary of
    the [JointResult] class, and the solve of the grasp waypoint dies on
    its first lookup. *)
Theorem invalid_solve_loses_seed :
  map (λ s, (solve_seed s, solve_result s)) (solves run_invalid_approach.2)
  = [ (neutral, Ret JointResult_new);
      (∅, Raise (KeyError "right_j0")) ]
  ∧ commands run_invalid_approach.2 = []
  ∧ neutral ≠ ∅.
Proof. split_and!; [by vm_compute|by vm_compute|apply neutral_not_empty]. Qed.

(** C2. The solve of the transfer waypoint finds no solution.  The run does
    not reach its end: after the object was gripped and lifted the solve of
    the place waypoint raises [KeyError], which nothing in [pick_place] or
    [main] catches, and the retreat waypoint is never tried; [main] run
    against the same service ends with that exception. *)
Theorem invalid_solve_ends_run :
  run_invalid_transfer.1 = Raise (KeyError "right_j0")
  ∧ map (λ s, match solve_result s with
              | Ret res => Some (valid res)
              | Raise _ => None
              end) (solves run_invalid_transfer.2)
    = [Some true; Some true; Some true; Some false; None]
  ∧ (commands run_invalid_transfer.2).*1 = [1; 2; 2; 2; 3]
  ∧ (main (demo_env [1; 1; 1; 0]%Z) []).1 = Raise (KeyError "right_j0").
Proof. split_and!; by vm_compute. Qed.

(** C9. The solve of the grasp waypoint finds no solution.  The gripper is
    closed all the same, but it is never opened: the run dies in the solve
    of the lift waypoint. *)
Theorem invalid_grasp_never_opens :
  run_invalid_grasp.1 = Raise (KeyError "right_j0")
  ∧ List.filter is_gripper_action (commands run_invalid_grasp.2).*2
    = [EvSetPosition 0.7].
Proof. split; by vm_compute. Qed.

(** *** The theorems at the demo *)

Lemma pick_place_waypoints_witness :
  demo_run.1 = Ret ()
  ∧ map solve_pose (solves demo_run.2)
    = [ ((0.6, 0.5, 0.23)%float, demo_quat);
        ((0.6, 0.5, 0.03)%float, demo_quat);
        ((0.6, 0.5, 0.23)%float, demo_quat);
        ((0.6, -0.5, 0.22)%float, demo_quat);
        ((0.6, -0.5, 0.02)%float, demo_quat);
        ((0.6, -0.5, 0.22)%float, demo_quat) ].
Proof.
  split; [by vm_compute|].
  apply (pick_place_waypoints (demo_env []) 0.6 0.5 0.03 0.6 (-0.5) 0.02
           demo_quat demo_quat 0.7 0.20 neutral [] demo_run.1 demo_run.2).
  - apply surjective_pairing.
  - by vm_compute.
Defined.

Lemma valid_solve_seeds_next_witness :
  ∃ s s' c,
    solves demo_run.2 !! 0 = Some s
    ∧ solves demo_run.2 !! 1 = Some s'
    ∧ solve_result s = Ret {| jangles := c; valid := true |}
    ∧ solve_seed s' = c.
Proof.
  eexists _, _, _. split_and!; [by vm_compute|by vm_compute|by vm_compute|].
  eapply (valid_solve_seeds_next (demo_env []) demo_start demo_end 0.7 0.20
            neutral [] demo_run.1 demo_run.2 0).
  - apply surjective_pairing.
  - by vm_compute.
  - by vm_compute.
  - by vm_compute.
Defined.

Lemma get_ik_single_attempt_witness :
  complete neutral
  ∧ (∃ c, demo_solve.1 = Ret {| jangles := c; valid := true |})
  ∧ length (List.filter is_service_call demo_solve.2) ≤ 1
  ∧ EvWaitForService ik_service_name 5 ∈ demo_solve.2.
Proof.
  destruct (get_ik_single_attempt (demo_env []) demo_start neutral []
              demo_solve.1 demo_solve.2 (surjective_pairing _))
    as (Honce & _ & _ & _ & Hwait).
  split_and!;
    [apply neutral_complete|by eexists; vm_compute|exact Honce
    |exact (Hwait neutral_complete)].
Defined.

Lemma gripper_between_motions_witness :
  commands demo_run.2 !! 1 = Some (2, EvMoveToJointPositions
                                        (default ∅ (solve_seed <$> solves demo_run.2 !! 2)))
  ∧ commands demo_run.2 !! 2 = Some (2, EvSetPosition 0.7)
  ∧ commands demo_run.2 !! 3 = Some (2, EvSleep 1)
  ∧ 1 < 2.
Proof.
  destruct (gripper_between_motions (demo_env []) demo_start demo_end 0.7 0.20
              neutral [] demo_run.1 demo_run.2 (surjective_pairing _))
    as (Hgrasp & _ & _ & _ & Hclose & _).
  assert (commands demo_run.2 !! 1
          = Some (2, EvMoveToJointPositions
                       (default ∅ (solve_seed <$> solves demo_run.2 !! 2))))
    as Hmove by by vm_compute.
  assert (commands demo_run.2 !! 2 = Some (2, EvSetPosition 0.7))
    as Hset by by vm_compute.
  split_and!; [exact Hmove|exact Hset| |].
  - exact (proj2 (Hclose 2 2 _ Hset)).
  - exact (Hgrasp 1 2 2 _ _ Hmove Hset).
Defined.

Lemma first_object_scenario_witness :
  Forall (λ s, ∃ c, solve_result s = Ret {| jangles := c; valid := true |})
    (solves demo_run.2)
  ∧ length (List.filter is_arm_motion (commands demo_run.2).*2) = 6
  ∧ List.filter is_gripper_action (commands demo_run.2).*2
    = [EvSetPosition 0.7; EvGripperOpen].
Proof.
  assert (Forall (λ s, ∃ c, solve_result s
                            = Ret {| jangles := c; valid := true |})
            (solves demo_run.2)) as Hall.
  { vm_compute. repeat constructor; by eexists. }
  split; [exact Hall|].
  destruct (first_object_scenario (demo_env []) demo_quat neutral []
              demo_run.1 demo_run.2 (surjective_pairing _))
    as [_ Hvalid].
  destruct (Hvalid Hall)
    as (_ & c1 & c2 & c3 & c4 & c5 & c6 & _ & Hcommands).
  rewrite Hcommands. split; reflexivity.
Defined.

Lemma no_motion_without_gripper_witness :
  gripper_startup_fails no_gripper_env [] ValueError
  ∧ (main no_gripper_env []).1 = Ret ()
  ∧ Forall (λ ev, is_arm_motion ev = false ∧ is_gripper_action ev = false)
      (main no_gripper_env []).2.
Proof.
  assert (gripper_startup_fails no_gripper_env [] ValueError) as Hfail
    by (left; reflexivity).
  split; [exact Hfail|].
  exact (no_motion_without_gripper no_gripper_env [] ValueError
           (main no_gripper_env []).1 (main no_gripper_env []).2
           Hfail (surjective_pairing _)).
Defined.

Lemma get_ik_invalid_is_empty_and_seed_lookup_witness :
  "right_j3" ∈ seed_names
  ∧ (∅ : Dict) !! "right_j3" = None
  ∧ ∃ k, get_ik (demo_env []) demo_start ∅ [] = (Raise (KeyError k), []).
Proof.
  assert ("right_j3" ∈ seed_names) as Hin by (by vm_compute; set_solver).
  split; [exact Hin|]. split; [reflexivity|].
  destruct (get_ik_invalid_is_empty_and_seed_lookup (demo_env []) demo_start
              ∅ []) as (_ & Hmissing & _).
  destruct (Hmissing "right_j3" Hin eq_refl) as (k & _ & _ & Hrun).
  by exists k.
Defined.

(** ** More about [main] *)

Section MainMore.

Variable env : Env.

Ltac run_main H :=
  unfold main, try_except, bind, rospy_init_node, intera_Limb,
    intera_HeadDisplay, intera_Gripper, gripper_calibrate_call, rospy_logerr,
    head_display_image, limb_move_to_neutral, limb_joint_angles_call,
    gripper_open, external, emit, ask, ret in H;
  simpl in H; rewrite <- ?app_assoc in H; simpl in H.

Ltac run_objects H :=
  repeat match type of H with
         | context [pick_place env ?a ?b ?c ?d ?q ?h'] =>
             let Hpp := fresh "Hpp" in
             let ev := fresh "ev" in
             let e := fresh "e" in
             destruct (pick_place env a b c d q h') as [[[]|e] ev] eqn:Hpp;
             simpl in H
         end.

Ltac in_trace H :=
  repeat first
    [ apply elem_of_app in H as [H|H]
    | apply elem_of_cons in H as [H|H]
    | by apply elem_of_nil in H ];
  try (by simplify_eq).

(** X13. Whatever happens in a run of [main], the gripper is only ever
    closed to one opening, [3.5 * (MAX_POSITION / 5.0)]. *)
Theorem main_closes_to_one_opening
    (h : Trace) (r : Res ()) (evs : Trace) (g : float) :
  main env h = (r, evs) →
  EvSetPosition g ∈ evs →
  g = (3.5 * (MAX_POSITION env / 5.0))%float.
Proof.
  intros H Hin. run_main H.
  destruct (gripper_new env _) as [e|] eqn:Hnew; simpl in H.
  { destruct e; simplify_eq/=; in_trace Hin. }
  destruct (gripper_calibrate env _) as [e|] eqn:Hcal; simpl in H.
  { destruct e; simplify_eq/=; in_trace Hin. }
  rewrite <- ?app_assoc in H. rewrite ?app_nil_r in H. simpl in H.
  run_objects H.
  all: simplify_eq.
  all: in_trace Hin.
  all: match goal with
       | Hpp : pick_place _ _ _ _ _ _ _ = (_, ?ev), Hin : _ ∈ ?ev |- _ =>
           exact (pick_place_set_position _ _ _ _ _ _ _ _ _ _ Hpp Hin)
       end.
Qed.

Ltac count_objects :=
  repeat match goal with
         | Hpp : pick_place _ _ _ _ _ _ _ = (_, ?ev) |- _ =>
             let Hn := fresh "Hn" in
             let Hall := fresh "Hall" in
             let s := fresh "s" in
             let Hs := fresh "Hs" in
             let Hseed := fresh "Hseed" in
             destruct (pick_place_solves_count _ _ _ _ _ _ _ _ _ Hpp)
               as [Hn Hall];
             destruct (first_solve_seed _ _ _ _ _ _ _ _ _ Hpp)
               as (s & Hs & Hseed);
             try specialize (Hall eq_refl);
             clear Hpp
         end.

Ltac block H :=
  repeat match type of H with
         | (?l1 ++ ?l2) !! ?i = Some _ =>
             first
               [ rewrite lookup_app_l in H by lia
               | rewrite lookup_app_r in H by lia;
                 match goal with
                 | Hl : length l1 = 6 |- _ => rewrite Hl in H; simpl in H
                 end ]
         end.

(** X14. In a run of [main] every object starts from the same seed: the
    first solve of each [pick_place], solve [6 * n] of the run, is seeded
    with the configuration read after the first move to neutral, not with
    the configuration the previous object ended in. *)
Theorem main_objects_start_from_neutral
    (h : Trace) (r : Res ()) (evs : Trace) (n : nat) (s : Solve) :
  main env h = (r, evs) →
  solves evs !! (6 * n) = Some s →
  solve_seed s = neutral_reading env h.
Proof.
  unfold neutral_reading, startup. simpl.
  intros H Hs. run_main H.
  destruct (gripper_new env _) as [e|] eqn:Hnew; simpl in H.
  { destruct e; by simplify_eq/=. }
  destruct (gripper_calibrate env _) as [e|] eqn:Hcal; simpl in H.
  { destruct e; by simplify_eq/=. }
  rewrite <- ?app_assoc in H. rewrite ?app_nil_r in H. simpl in H.
  run_objects H.
  all: simplify_eq.
  all: simpl in Hs; rewrite ?solves_app in Hs; simpl in Hs;
    rewrite ?app_nil_r in Hs.
  all: count_objects.
  all: destruct (decide (n < 6)) as [Hn6|Hn6];
    [|apply lookup_lt_Some in Hs; rewrite ?length_app in Hs; lia].
  all: assert (n = 0 ∨ n = 1 ∨ n = 2 ∨ n = 3 ∨ n = 4 ∨ n = 5)
         as [->|[->|[->|[->|[->| ->]]]]] by lia;
    simpl in Hs; block Hs;
    first [ congruence
          | apply lookup_lt_Some in Hs; rewrite ?length_app in Hs; lia ].
Qed.

(** X15. A run of [main] that has moved the arm and returns has made all
    thirty-six solves of the six objects, and the last thing it did was to
    show the closing image. *)
Theorem main_returns_after_all_objects (h : Trace) (evs : Trace) :
  main env h = (Ret (), evs) →
  EvMoveToNeutral ∈ evs →
  length (solves evs) = 36
  ∧ last evs
    = Some (EvDisplayImage
              ((get_pkg_dir env "sawyer_utec" +:+ "/images/")
               +:+ "sleep1.png")).
Proof.
  intros H Hin. run_main H.
  destruct (gripper_new env _) as [e|] eqn:Hnew; simpl in H.
  { destruct e; simplify_eq/=; in_trace Hin. }
  destruct (gripper_calibrate env _) as [e|] eqn:Hcal; simpl in H.
  { destruct e; simplify_eq/=; in_trace Hin. }
  rewrite <- ?app_assoc in H. rewrite ?app_nil_r in H. simpl in H.
  run_objects H.
  all: simplify_eq.
  clear Hin. split.
  - simpl. rewrite ?solves_app. simpl. count_objects.
    rewrite ?length_app. simpl. lia.
  - rewrite ?last_cons, ?last_app. done.
Qed.
End MainMore.

(** ** The further theorems at the demo *)

Lemma demo_env_reliable : reliable (demo_env []).
Proof.
  split; [done|]. intros h req p Hseed Hlen. simpl. rewrite Hseed. simpl.
  eexists 1%Z, [], _, []. split_and!; [done|done|].
  by rewrite length_map.
Qed.

Lemma demo_run_returns : demo_run = (Ret (), demo_run.2).
Proof.
  pose proof (surjective_pairing demo_run) as H.
  assert (demo_run.1 = Ret ()) as Hr by by vm_compute.
  by rewrite Hr in H.
Qed.

Lemma demo_main_returns : demo_main = (Ret (), demo_main.2).
Proof.
  pose proof (surjective_pairing demo_main) as H.
  assert (demo_main.1 = Ret ()) as Hr by by vm_compute.
  by rewrite Hr in H.
Qed.

Lemma get_ik_request_witness :
  EvServiceCall demo_request ∈ demo_solve.2
  ∧ tip_names demo_request = ["right_hand"]
  ∧ ∃ p, seed_angles demo_request
         = [{| js_name := seed_names; js_position := p |}]
         ∧ length p = 7.
Proof.
  assert (EvServiceCall demo_request ∈ demo_solve.2) as Hin.
  { vm_compute. apply list_elem_of_further, list_elem_of_here. }
  destruct (get_ik_request (demo_env []) demo_start neutral [] demo_solve.1
              demo_solve.2 demo_request (surjective_pairing _) Hin)
    as (m & p & _ & _ & _ & _ & Htip & _ & Hseed & _ & Hlen).
  split_and!; [exact Hin|exact Htip|by exists p].
Defined.

Lemma get_ik_raises_only_witness :
  get_ik (demo_env []) demo_start ∅ [] = (Raise (KeyError "right_j0"), [])
  ∧ "right_j0" ∈ seed_names.
Proof.
  assert (get_ik (demo_env []) demo_start ∅ []
          = (Raise (KeyError "right_j0"), [])) as Hrun by by vm_compute.
  split; [exact Hrun|].
  destruct (get_ik_raises_only (demo_env []) demo_start ∅ []
              (KeyError "right_j0") [] Hrun)
    as [(k & Hk & Hin & _)|[Hk _]]; [|discriminate Hk].
  by injection Hk as ->.
Defined.

Lemma get_ik_logs_error_iff_invalid_witness :
  demo_solve_invalid.1 = Ret JointResult_new
  ∧ ∃ m, EvLogErr m ∈ demo_solve_invalid.2.
Proof.
  assert (demo_solve_invalid.1 = Ret JointResult_new) as Hr by by vm_compute.
  split; [exact Hr|].
  destruct (get_ik_logs_error_iff_invalid (demo_env [0%Z]) demo_start neutral
              [] demo_solve_invalid.1 demo_solve_invalid.2
              (surjective_pairing _)) as [[_ Hlog] _].
  apply Hlog. by exists JointResult_new.
Defined.

Lemma get_ik_commands_nothing_witness : commands demo_solve.2 = [].
Proof.
  exact (proj1 (proj2 (get_ik_commands_nothing (demo_env []) demo_start
                         neutral [] demo_solve.1 demo_solve.2 0
                         (surjective_pairing _)))).
Defined.

Lemma dict_zip_lookup_witness :
  dict_zip ["a"; "b"; "a"; "c"] [1.0; 2.0; 3.0]%float !! "a" = Some 3.0%float
  ∧ dict_zip ["a"; "b"; "a"; "c"] [1.0; 2.0; 3.0]%float !! "c" = None.
Proof.
  destruct (dict_zip_lookup ["a"; "b"; "a"; "c"] [1.0; 2.0; 3.0]%float "a")
    as [Hsome _].
  destruct (dict_zip_lookup ["a"; "b"; "a"; "c"] [1.0; 2.0; 3.0]%float "c")
    as [_ Hnone].
  split.
  - apply Hsome. exists 2. split_and!; [done|done|].
    intros j Hj Hlen. simpl in Hlen. lia.
  - apply Hnone. intros i Hi.
    do 4 (destruct i as [|i]; [by simplify_eq/=|]). simpl. lia.
Defined.

Lemma get_ik_resends_solution_witness :
  length [0.0; -1.18; 0.0; 2.18; 0.0; 0.57; 3.3161]%float = 7
  ∧ seed_angles demo_request
    = [{| js_name := seed_names;
          js_position := [0.0; -1.18; 0.0; 2.18; 0.0; 0.57; 3.3161]%float |}].
Proof.
  split; [reflexivity|].
  destruct (get_ik_resends_solution (demo_env []) demo_start
              [0.0; -1.18; 0.0; 2.18; 0.0; 0.57; 3.3161]%float []
              demo_solve.1 demo_solve.2 eq_refl (surjective_pairing _))
    as (_ & _ & Hreq).
  apply Hreq. vm_compute. apply list_elem_of_further, list_elem_of_here.
Defined.

Lemma pick_place_outcome_witness :
  demo_run.1 = Ret () ∧ length (solves demo_run.2) = 6.
Proof.
  assert (demo_run.1 = Ret ()) as Hr by by vm_compute.
  split; [exact Hr|].
  destruct (pick_place_outcome (demo_env []) demo_start demo_end 0.7 0.20
              neutral [] demo_run.1 demo_run.2 (surjective_pairing _))
    as (_ & Hret & _).
  exact (proj1 (Hret Hr)).
Defined.

Lemma pick_place_budget_witness :
  length (List.filter is_service_call demo_run.2) ≤ length (solves demo_run.2)
  ∧ length (solves demo_run.2) ≤ 6.
Proof.
  destruct (pick_place_budget (demo_env []) demo_start demo_end 0.7 0.20
              neutral [] demo_run.1 demo_run.2 (surjective_pairing _))
    as (Hcalls & _ & _ & Hsolves).
  exact (conj Hcalls Hsolves).
Defined.

Lemma pick_place_reliable_returns_witness :
  reliable (demo_env []) ∧ complete neutral ∧ demo_run.1 = Ret ().
Proof.
  split_and!; [apply demo_env_reliable|apply neutral_complete|].
  exact (proj1 (pick_place_reliable_returns (demo_env []) demo_start demo_end
                  0.7 0.20 neutral [] demo_run.1 demo_run.2
                  demo_env_reliable neutral_complete (surjective_pairing _))).
Defined.

Lemma invalid_solve_starves_next_witness :
  ∃ s s',
    solves run_invalid_approach.2 !! 0 = Some s
    ∧ solves run_invalid_approach.2 !! 1 = Some s'
    ∧ solve_result s = Ret JointResult_new
    ∧ solve_seed s' = ∅
    ∧ run_invalid_approach.1 = Raise (KeyError "right_j0").
Proof.
  eexists _, _. split_and!; [by vm_compute|by vm_compute|by vm_compute| |].
  all: eapply (invalid_solve_starves_next (demo_env [0%Z]) demo_start demo_end
                 0.7 0.20 neutral [] run_invalid_approach.1
                 run_invalid_approach.2 0 _ _ JointResult_new
                 (surjective_pairing _)); by vm_compute.
Defined.

Lemma no_motion_without_valid_solve_witness :
  ∃ s c,
    solves demo_run.2 !! 0 = Some s
    ∧ commands demo_run.2 !! 0 = Some (1, EvMoveToJointPositions c)
    ∧ solve_result s = Ret {| jangles := c; valid := true |}.
Proof.
  eexists _, _. split_and!; [by vm_compute|by vm_compute|].
  eapply (no_motion_without_valid_solve (demo_env []) demo_start demo_end
            0.7 0.20 neutral [] demo_run.1 demo_run.2 0 0
            _ _ (surjective_pairing _)); by vm_compute.
Defined.

Lemma returning_run_grips_once_witness :
  List.filter is_gripper_action (commands demo_run.2).*2
  = [EvSetPosition 0.7; EvGripperOpen].
Proof.
  exact (returning_run_grips_once (demo_env []) demo_start demo_end 0.7 0.20
           neutral [] demo_run.2 demo_run_returns).
Defined.

Lemma main_closes_to_one_opening_witness :
  EvSetPosition (3.5 * (0.041667 / 5.0)) ∈ demo_main.2
  ∧ (3.5 * (0.041667 / 5.0))%float
    = (3.5 * (MAX_POSITION (demo_env []) / 5.0))%float.
Proof.
  assert (EvSetPosition (3.5 * (0.041667 / 5.0)) ∈ demo_main.2) as Hin.
  { apply (list_elem_of_lookup_2 _ 20). by vm_compute. }
  split; [exact Hin|].
  exact (main_closes_to_one_opening (demo_env []) [] demo_main.1 demo_main.2
           _ (surjective_pairing _) Hin).
Defined.

Lemma main_objects_start_from_neutral_witness :
  ∃ s, solves demo_main.2 !! (6 * 1) = Some s ∧ solve_seed s = neutral.
Proof.
  eexists. split; [by vm_compute|].
  eapply (main_objects_start_from_neutral (demo_env []) [] demo_main.1
            demo_main.2 1 _ (surjective_pairing _)).
  by vm_compute.
Defined.

Lemma main_returns_after_all_objects_witness :
  EvMoveToNeutral ∈ demo_main.2 ∧ length (solves demo_main.2) = 36.
Proof.
  assert (EvMoveToNeutral ∈ demo_main.2) as Hin.
  { apply (list_elem_of_lookup_2 _ 6). by vm_compute. }
  split; [exact Hin|].
  exact (proj1 (main_returns_after_all_objects (demo_env []) [] demo_main.2
                  demo_main_returns Hin)).
Defined.
